(** * DataSnatch: crawl, enrichment and scoring pipeline

    A shallow embedding of [src/scraper/profile_scraper.py],
    [src/scraper/base_scraper.py] and [src/analyzer/profile_analyzer.py],
    followed by the properties of the design document that concern them.

    Conventions of the embedding:
    - a Python [str] is a [string], its characters being code points below
      256; the visited set of the crawler is a [gset string];
    - a Python [float] is a rational of [Q]; rounding of binary64 arithmetic
      is not modelled, and equalities on scores are [Qeq];
    - a Python [dict] with a fixed set of keys is a record whose fields are
      [slot]s, so that a missing key, a key bound to [None] and a key bound
      to a value stay distinct;
    - a call that may raise returns a [result]; [try]/[except Exception]
      blocks are written out as matches on it;
    - mutable objects captured by a closure (the visited set, the list of
      profiles) and the outside world (the clock, the requests issued) are
      threaded explicitly. *)

From Stdlib Require Import ZArith QArith Qminmax Lqa Lia Bool Ascii String List.
From stdpp Require Import base gmap sets list strings.

Import ListNotations.
Local Open Scope Z_scope.

(** ** Python values *)

Module Py.

(** The value found under a key of a dictionary. *)
Inductive slot (A : Type) : Type :=
| Missing            (* the key is not in the dictionary *)
| PyNone             (* the key is bound to [None] *)
| Val (a : A).       (* the key is bound to a value *)
Arguments Missing {A}.
Arguments PyNone {A}.
Arguments Val {A} a.

(** Truth value of [d.get(key)] for a string-valued key. *)
Definition truthy_str (s : slot string) : bool :=
  match s with
  | Val EmptyString => false
  | Val _ => true
  | _ => false
  end.

(** Truth value of [d.get(key)] for a list-valued key. *)
Definition truthy_list {A} (s : slot (list A)) : bool :=
  match s with
  | Val (_ :: _) => true
  | _ => false
  end.

Inductive exn : Type :=
| TypeError
| ValueError
| CvError                  (* [cv2.error] *)
| WebDriverException.      (* [selenium.common.exceptions.WebDriverException] *)

Inductive result (A : Type) : Type :=
| Ok (a : A)
| Raise (e : exn).
Arguments Ok {A} a.
Arguments Raise {A} e.

Definition bind {A B} (r : result A) (k : A -> result B) : result B :=
  match r with
  | Ok a => k a
  | Raise e => Raise e
  end.

Definition rmap {A B} (f : A -> B) (r : result A) : result B :=
  match r with
  | Ok a => Ok (f a)
  | Raise e => Raise e
  end.

(** [s.startswith(p)] *)
Fixpoint startswith (s p : string) : bool :=
  match p, s with
  | EmptyString, _ => true
  | String c p', String d s' => if Ascii.eqb c d then startswith s' p' else false
  | String _ _, EmptyString => false
  end.

(** [s.lstrip('/')] *)
Fixpoint lstrip_slash (s : string) : string :=
  match s with
  | String "/" s' => lstrip_slash s'
  | _ => s
  end.

(** [s.rstrip('/')] *)
Fixpoint rstrip_slash (s : string) : string :=
  match s with
  | EmptyString => EmptyString
  | String c s' =>
      match rstrip_slash s' with
      | EmptyString => if Ascii.eqb c "/" then EmptyString else String c EmptyString
      | t => String c t
      end
  end.

(** [c.lower()] on one character, for code points below 256: the ASCII
    capitals and the Latin-1 capitals (all of 192..222 but the sign at 215). *)
Definition lower_char (c : ascii) : ascii :=
  let n := nat_of_ascii c in
  if (65 <=? n)%nat && (n <=? 90)%nat then ascii_of_nat (n + 32)
  else if (192 <=? n)%nat && (n <=? 222)%nat && negb (n =? 215)%nat
       then ascii_of_nat (n + 32)
  else c.

(** [s.lower()] *)
Fixpoint lower (s : string) : string :=
  match s with
  | EmptyString => EmptyString
  | String c s' => String (lower_char c) (lower s')
  end.

(** [p in s] for strings. *)
Fixpoint contains (s p : string) : bool :=
  startswith s p ||
  match s with
  | EmptyString => false
  | String _ s' => contains s' p
  end.

End Py.

Import Py.

(** ** Data model *)

(** [metadata] of a scraped record. *)
Record Metadata : Type := {
  scraped_at : Z;          (* [datetime.now().isoformat()], as a clock reading *)
  source_url : string
}.

(** The dictionary built by [parse_profile]. *)
Record Profile : Type := {
  name : slot string;
  phone : slot string;
  location : slot string;
  age : slot Z;
  date : slot string;
  message : slot string;
  images : slot (list string);
  metadata : slot Metadata
}.

(** The world outside the process: a clock, and the requests issued through
    [get_page_content] so far, oldest first.  Each request carries the
    [depth] argument of the [crawl_page] activation that issued it. *)
Record World : Type := {
  clock : Z;
  requests : list (string * Z)
}.

(** ** The scraper ([base_scraper.py], [profile_scraper.py]) *)

Module Scraper.

(** The two objects captured by the closure [crawl_page], and the world. *)
Record CrawlState : Type := {
  visited_urls : gset string;
  profiles : list Profile;
  world : World
}.

Definition opt_slot {A} (o : option A) : slot A :=
  match o with
  | Some a => Val a
  | None => PyNone
  end.

Section WithSite.

(** What [BeautifulSoup(content, 'html.parser')] gives access to. *)
Variable Html : Type.

(** [soup.find_all('a', href=True)], as the [href] of each anchor in
    document order. *)
Variable find_all_a_href : Html -> list string.

(** The selectors of [ProfileScraper]. *)
Variable _extract_name : Html -> option string.
Variable _extract_phone : Html -> option string.
Variable _extract_location : Html -> option string.
Variable _extract_age : Html -> option Z.
Variable _extract_date : Html -> option string.
Variable _extract_message : Html -> option string.
Variable _extract_images : Html -> list string.

(** [self.base_url] and [self.max_depth]. *)
Variable base_url : string.
Variable max_depth : Z.

(** [BaseScraper.parse_profile]: every key is set, to [None] when the
    selector finds nothing; the record is stamped with the current time. *)
Definition parse_profile (w : World) (html_content : Html) : Profile :=
  {| name := opt_slot (_extract_name html_content);
     phone := opt_slot (_extract_phone html_content);
     location := opt_slot (_extract_location html_content);
     age := opt_slot (_extract_age html_content);
     date := opt_slot (_extract_date html_content);
     message := opt_slot (_extract_message html_content);
     images := Val (_extract_images html_content);
     metadata := Val {| scraped_at := clock w; source_url := base_url |} |}.

(** The methods [crawl_page] reaches through [self]: the fetcher, whose
    answer may depend on the world and which raises when it answers
    [None], and the parser. *)
Variable get_page_content : World -> string -> option Html.
Variable self_parse_profile : World -> Html -> Profile.

(** The effect of one [get_page_content(url)] call on the world: time
    passes and the request is on record, whether the call returns or raises. *)
Definition record_request (url : string) (depth : Z) (w : World) : World :=
  {| clock := clock w + 1; requests := requests w ++ [(url, depth)] |}.

(** [visited_urls.add(url)] *)
Definition mark_visited (url : string) (st : CrawlState) : CrawlState :=
  {| visited_urls := {[url]} ∪ visited_urls st;
     profiles := profiles st;
     world := world st |}.

Definition set_world (w : World) (st : CrawlState) : CrawlState :=
  {| visited_urls := visited_urls st; profiles := profiles st; world := w |}.

(** [profiles.append(profile_data)] *)
Definition append_profile (p : Profile) (st : CrawlState) : CrawlState :=
  {| visited_urls := visited_urls st;
     profiles := profiles st ++ [p];
     world := world st |}.

(** Lines 75-77: a link that does not start with [http] is joined onto
    [base_url]. *)
Definition resolve (href : string) : string :=
  if startswith href "http" then href
  else rstrip_slash base_url +:+ "/" +:+ lstrip_slash href.

(** Lines 74-79, one iteration of the loop over the links; [recurse] is
    [crawl_page(_, depth + 1)]. *)
Definition follow_link (recurse : string -> CrawlState -> CrawlState)
    (st : CrawlState) (link : string) : CrawlState :=
  let href := resolve link in
  if startswith href base_url && negb (bool_decide (href ∈ visited_urls st))
  then recurse href st
  else st.

(** Line 61: the test that makes [crawl_page] return at once. *)
Definition refuses (url : string) (depth : Z) (st : CrawlState) : bool :=
  (max_depth <? depth) || bool_decide (url ∈ visited_urls st).

(** The closure [crawl_page].  The recursion of the source is bounded by
    [max_depth]; [fuel] counts the levels that remain, and the branch at
    [O] is never taken when [fuel] exceeds [max_depth - depth]. *)
Fixpoint crawl_page_rec (fuel : nat) (url : string) (depth : Z)
    (st : CrawlState) {struct fuel} : CrawlState :=
  if refuses url depth st then st
  else
    match fuel with
    | O => st
    | S fuel' =>
        let st1 := mark_visited url st in
        let w := record_request url depth (world st1) in
        match get_page_content (world st1) url with
        | None => set_world w st1
        | Some content =>
            let st2 := set_world w st1 in
            let st3 :=
              if contains (lower url) "profile"
              then append_profile (self_parse_profile (world st2) content) st2
              else st2 in
            fold_left
              (follow_link (fun href => crawl_page_rec fuel' href (depth + 1)))
              (find_all_a_href content) st3
        end
    end.

Definition levels_left (depth : Z) : nat := Z.to_nat (max_depth - depth + 1).

Definition crawl_page (url : string) (depth : Z) (st : CrawlState) : CrawlState :=
  crawl_page_rec (levels_left depth) url depth st.

(** [profiles = []] and [visited_urls = set()], lines 57-58. *)
Definition fresh_state (w : World) : CrawlState :=
  {| visited_urls := ∅; profiles := []; world := w |}.

(** [_scrape_state]: a fresh visited set and a fresh list of profiles for
    each invocation. *)
Definition _scrape_state (state : string) (w : World) : list Profile * World :=
  let st := crawl_page base_url 0 (fresh_state w) in
  (profiles st, world st).

(** The loop of [scrape_profiles] over the states. *)
Fixpoint scrape_states (states : list string) (acc : list Profile) (w : World)
    : list Profile * World :=
  match states with
  | [] => (acc, w)
  | state :: rest =>
      let '(state_profiles, w') := _scrape_state state w in
      scrape_states rest (acc ++ state_profiles) w'
  end.

(** The body of [BaseScraper.scrape_profiles] between [initialize()] and
    [close()], lines 103-105 and 110-112: the profiles of the states, one
    state after the other; [states = None] stands for the default
    argument.  The two calls around it are modelled with the application,
    in [App.scraper_scrape_profiles]. *)
Definition scrape_profiles (states : option (list string)) (w : World)
    : list Profile * World :=
  scrape_states (default ["all"%string] states) [] w.

(** The requests issued between two worlds. *)
Definition issued (w w' : World) : list (string * Z) :=
  drop (length (requests w)) (requests w').

End WithSite.

End Scraper.

(** ** Regular expressions, as far as [phone_pattern] needs them *)

Module Re.

Inductive regex : Type :=
| Class (p : ascii -> bool)       (* one character of a class *)
| Opt (r : regex)                 (* [r?] *)
| StarClass (p : ascii -> bool)   (* [c*] for a class [c] *)
| Seq (r1 r2 : regex).

(** The suffixes left after [c*] has consumed a prefix, longest match
    first. *)
Fixpoint star_rests (p : ascii -> bool) (s : string) : list string :=
  match s with
  | String c s' => (if p c then star_rests p s' else []) ++ [s]
  | EmptyString => [s]
  end.

(** The suffixes left after [r] has matched a prefix of [s], in the order
    a backtracking matcher tries them. *)
Fixpoint rests (r : regex) (s : string) : list string :=
  match r with
  | Class p =>
      match s with
      | String c s' => if p c then [s'] else []
      | EmptyString => []
      end
  | Opt r' => rests r' s ++ [s]
  | StarClass p => star_rests p s
  | Seq r1 r2 => flat_map (rests r2) (rests r1 s)
  end.

(** [pattern.match(s)] is not [None]. *)
Definition re_match (r : regex) (s : string) : bool :=
  match rests r s with
  | [] => false
  | _ :: _ => true
  end.

Definition chr (c : ascii) : regex := Class (Ascii.eqb c).

Definition is_digit (c : ascii) : bool :=
  let n := nat_of_ascii c in (48 <=? n)%nat && (n <=? 57)%nat.

(** [\s] on a [str] pattern, for code points below 256. *)
Definition is_space (c : ascii) : bool :=
  let n := nat_of_ascii c in
  ((9 <=? n)%nat && (n <=? 13)%nat) || ((28 <=? n)%nat && (n <=? 32)%nat)
  || (n =? 133)%nat || (n =? 160)%nat.

(** [[-.\s]] *)
Definition is_separator (c : ascii) : bool :=
  Ascii.eqb c "-" || Ascii.eqb c "." || is_space c.

Definition digits3 : regex :=
  Seq (Class is_digit) (Seq (Class is_digit) (Class is_digit)).

Definition digits4 : regex := Seq (Class is_digit) digits3.

(** [\+?1?\s*\(?[0-9]{3}\)?[-.\s]?[0-9]{3}[-.\s]?[0-9]{4}] *)
Definition phone_pattern : regex :=
  Seq (Opt (chr "+"))
 (Seq (Opt (chr "1"))
 (Seq (StarClass is_space)
 (Seq (Opt (chr "("))
 (Seq digits3
 (Seq (Opt (chr ")"))
 (Seq (Opt (Class is_separator))
 (Seq digits3
 (Seq (Opt (Class is_separator))
      digits4)))))))).

End Re.

(** ** Images ([numpy] arrays as [cv2] produces and consumes them) *)

Module Img.

Local Open Scope Q_scope.

(** A two-dimensional array, with its shape. *)
Record grid (A : Type) : Type := {
  rows : nat;
  cols : nat;
  cell : nat -> nat -> A
}.
Arguments rows {A} g.
Arguments cols {A} g.
Arguments cell {A} g i j.

(** An image as [cv2.imdecode(_, cv2.IMREAD_COLOR)] returns it: three
    [uint8] channels per pixel, in the order blue, green, red. *)
Definition Image : Type := grid (N * N * N).

Definition is_empty {A} (g : grid A) : bool :=
  (rows g =? 0)%nat || (cols g =? 0)%nat.

(** [arr.size] of an image. *)
Definition size (img : Image) : nat := (rows img * cols img * 3)%nat.

(** [bool(arr)], as [if image_data:] evaluates it: numpy defines the
    truth value of an array only when it has exactly one element, and
    raises [ValueError] otherwise (for an empty array since numpy 2.2;
    earlier versions answered [False] with a deprecation warning, so that
    the body of the test did not run either). *)
Definition ndarray_bool (img : Image) : result bool :=
  match size img with
  | 1%nat => Ok (negb (N.eqb (fst (fst (cell img 0 0))) 0))
  | _ => Raise ValueError
  end.

(** The cells of an array, row by row. *)
Definition cells {A} (g : grid A) : list A :=
  flat_map (fun i => map (cell g i) (seq 0 (cols g))) (seq 0 (rows g)).

(** [sum(l)] *)
Definition Qsum (l : list Q) : Q := fold_left Qplus l 0.

(** [np.mean] *)
Definition mean (l : list Q) : Q := Qsum l / inject_Z (Z.of_nat (length l)).

(** [ndarray.var()]: the mean of the squared deviations from the mean. *)
Definition var (l : list Q) : Q :=
  let m := mean l in
  mean (map (fun x => (x - m) * (x - m)) l).

(** [cv2.cvtColor(_, cv2.COLOR_BGR2GRAY)] on 8-bit channels.  OpenCV
    computes Y = 0.299 R + 0.587 G + 0.114 B in fixed point: the weights
    are scaled by 2^15 and rounded to 9798, 19235 and 3735, and the sum is
    rounded by adding 2^14 and shifting right by 15.  An empty input is an
    error. *)
Definition gray_shift : Z := 15.
Definition RY15 : Z := 9798.
Definition GY15 : Z := 19235.
Definition BY15 : Z := 3735.

Definition gray_of (px : N * N * N) : Z :=
  let '(b, g, r) := px in
  Z.shiftr (Z.of_N b * BY15 + Z.of_N g * GY15 + Z.of_N r * RY15
            + Z.shiftl 1 (gray_shift - 1)) gray_shift.

Definition cvtColor_BGR2GRAY (img : Image) : result (grid Z) :=
  if is_empty img then Raise CvError
  else Ok {| rows := rows img; cols := cols img;
             cell := fun i j => gray_of (cell img i j) |}.

(** [cv2.cvtColor(_, cv2.COLOR_BGR2RGB)] *)
Definition cvtColor_BGR2RGB (img : Image) : result Image :=
  if is_empty img then Raise CvError
  else Ok {| rows := rows img; cols := cols img;
             cell := fun i j => let '(b, g, r) := cell img i j in (r, g, b) |}.

(** [cv2.borderInterpolate(p, len, cv2.BORDER_REFLECT_101)] for the
    positions a 3-tap filter reads, [-1 <= p <= len]. *)
Definition border (p : Z) (len : nat) : nat :=
  if (len =? 1)%nat then O
  else if (p <? 0)%Z then Z.to_nat (- p)
  else if (Z.of_nat len <=? p)%Z then Z.to_nat (2 * Z.of_nat len - 2 - p)
  else Z.to_nat p.

(** [cv2.Laplacian(gray, cv2.CV_64F)] with the default aperture: the
    4-neighbour stencil with a reflected border. *)
Definition Laplacian (gray : grid Z) : grid Q :=
  let at_ (i j : Z) : Z :=
    cell gray (border i (rows gray)) (border j (cols gray)) in
  {| rows := rows gray; cols := cols gray;
     cell := fun i j =>
       let i' := Z.of_nat i in
       let j' := Z.of_nat j in
       inject_Z (at_ (i' - 1) j' + at_ (i' + 1) j' + at_ i' (j' - 1)
                 + at_ i' (j' + 1) - 4 * at_ i' j')%Z |}.

(** A [rows] by [cols] image all of whose channels hold [v]. *)
Definition uniform (r c : nat) (v : N) : Image :=
  {| rows := r; cols := c; cell := fun _ _ => (v, v, v) |}.

End Img.

(** ** The analyzer ([profile_analyzer.py]) *)

Module Analyzer.

Import Img.
Local Open Scope Q_scope.

(** A face encoding, [face_encoding.tolist()]. *)
Definition Encoding : Type := list Q.

(** A face location: top, right, bottom, left. *)
Definition Box : Type := (Z * Z * Z * Z)%type.

Record ImageAnalysis : Type := {
  face_detected : bool;
  face_encodings : list Encoding;
  image_quality : list Q;
  reverse_image_results : list string
}.

Record PhoneAnalysis : Type := {
  phone_is_valid : bool;
  carrier : option string;
  phone_location : option string;
  associated_names : list string;
  phone_associated_profiles : list string
}.

Record LocationAnalysis : Type := {
  location_is_valid : bool;
  coordinates : option (Q * Q);
  location_associated_profiles : list string
}.

(** The dictionary [analyze_profile] builds: a copy of the record, the
    analyses of the keys the record has, and the score. *)
Record EnrichedProfile : Type := {
  base : Profile;
  image_analysis : option ImageAnalysis;
  phone_analysis : option PhoneAnalysis;
  location_analysis : option LocationAnalysis;
  authenticity_score : option Q
}.

(** An HTTP response: status and body. *)
Record Response : Type := {
  status : Z;
  body : list Byte.byte
}.

(** The value [sequence[key]] or [for _ in sequence] needs: [None] is a
    [TypeError]. *)
Definition required {A} (s : slot A) : result (option A) :=
  match s with
  | Missing => Ok None
  | PyNone => Raise TypeError
  | Val a => Ok (Some a)
  end.

Section WithServices.

(** [self.use_apis] *)
Variable use_apis : bool.

(** [session.get(url)] followed by [response.read()]. *)
Variable session_get : string -> result Response.

(** [cv2.imdecode(np.frombuffer(data, np.uint8), cv2.IMREAD_COLOR)]: an
    image, [None] when the data cannot be decoded, an error on an empty
    buffer. *)
Variable imdecode : list Byte.byte -> result (option Image).

(** [face_recognition.face_locations] and [face_recognition.face_encodings]. *)
Variable face_locations : Image -> result (list Box).
Variable face_recognition_encodings : Image -> list Box -> result (list Encoding).

(** [download_image]: every exception is caught and gives [None], as does
    a status other than 200. *)
Definition download_image (url : string) : option Image :=
  match session_get url with
  | Raise _ => None
  | Ok response =>
      if (status response =? 200)%Z then
        match imdecode (body response) with
        | Raise _ => None
        | Ok image => image
        end
      else None
  end.

(** [detect_face]: the encoding of the first location, [None] when there
    is no location or when anything raises. *)
Definition detect_face (image : Image) : option Encoding :=
  match cvtColor_BGR2RGB image with
  | Raise _ => None
  | Ok rgb_image =>
      match face_locations rgb_image with
      | Raise _ => None
      | Ok [] => None
      | Ok locations =>
          match face_recognition_encodings rgb_image locations with
          | Raise _ => None
          | Ok encodings => head encodings    (* [[0]]; [IndexError] is caught *)
          end
      end
  end.

Definition sharpness_score (gray : grid Z) : Q :=
  let laplacian_var := var (cells (Laplacian gray)) in
  Qmin 1 (laplacian_var / 500).

Definition brightness_score (gray : grid Z) : Q :=
  let brightness := mean (map inject_Z (cells gray)) in
  Qmin 1 (brightness / 255).

(** [assess_image_quality] *)
Definition assess_image_quality (image : Image) : Q :=
  match cvtColor_BGR2GRAY image with
  | Raise _ => 0
  | Ok gray => (sharpness_score gray + brightness_score gray) / 2
  end.

(** The placeholders for the external lookups. *)
Definition reverse_image_search (image_url : string) : list string := [].
Definition get_carrier_info (phone : string) : option string := None.
Definition search_phone_online (phone : string) : list string * list string :=
  ([], []).
Definition geocode_location (location : option string) : option (Q * Q) := None.
Definition search_nearby_profiles (coordinates : Q * Q) : list string := [].

Definition no_images : ImageAnalysis :=
  {| face_detected := false; face_encodings := [];
     image_quality := []; reverse_image_results := [] |}.

(** Lines 63-67 *)
Definition note_face (face_encoding : option Encoding) (a : ImageAnalysis)
    : ImageAnalysis :=
  match face_encoding with
  | Some enc =>
      {| face_detected := true;
         face_encodings := face_encodings a ++ [enc];
         image_quality := image_quality a;
         reverse_image_results := reverse_image_results a |}
  | None => a
  end.

(** Lines 70-71 *)
Definition note_quality (quality_score : Q) (a : ImageAnalysis) : ImageAnalysis :=
  {| face_detected := face_detected a;
     face_encodings := face_encodings a;
     image_quality := image_quality a ++ [quality_score];
     reverse_image_results := reverse_image_results a |}.

(** Lines 74-76 *)
Definition note_reverse (results : list string) (a : ImageAnalysis) : ImageAnalysis :=
  {| face_detected := face_detected a;
     face_encodings := face_encodings a;
     image_quality := image_quality a;
     reverse_image_results := reverse_image_results a ++ results |}.

(** The image on which the body of [if image_data:] runs, if it runs. *)
Definition examined (url : string) : option Image :=
  match download_image url with
  | None => None
  | Some image_data =>
      match ndarray_bool image_data with
      | Ok true => Some image_data
      | Ok false => None
      | Raise _ => None          (* caught by [except Exception] at line 78 *)
      end
  end.

(** One iteration of the loop of [analyze_images], lines 59-79. *)
Definition analyze_image (analysis : ImageAnalysis) (url : string) : ImageAnalysis :=
  match examined url with
  | None => analysis
  | Some image_data =>
      let a1 := note_face (detect_face image_data) analysis in
      let a2 := note_quality (assess_image_quality image_data) a1 in
      if use_apis then note_reverse (reverse_image_search url) a2 else a2
  end.

(** [analyze_images] *)
Definition analyze_images (image_urls : list string) : ImageAnalysis :=
  fold_left analyze_image image_urls no_images.

(** The faces found, and the qualities measured, on the images of a list
    of URLs, in the order of the list. *)
Definition faces_found (urls : list string) : list Encoding :=
  omap (fun url => examined url ≫= detect_face) urls.

Definition qualities_measured (urls : list string) : list Q :=
  omap (fun url => assess_image_quality <$> examined url) urls.

Definition nonempty {A} (l : list A) : bool :=
  match l with [] => false | _ :: _ => true end.

(** [analyze_phone]; [phone_pattern.match(None)] is a [TypeError]. *)
Definition analyze_phone (phone : option string) : result PhoneAnalysis :=
  match phone with
  | None => Raise TypeError
  | Some phone =>
      if Re.re_match Re.phone_pattern phone then
        if use_apis then
          let carrier_info := get_carrier_info phone in
          let associated_data := search_phone_online phone in
          Ok {| phone_is_valid := true; carrier := carrier_info;
                phone_location := None;
                associated_names := fst associated_data;
                phone_associated_profiles := snd associated_data |}
        else
          Ok {| phone_is_valid := true; carrier := None; phone_location := None;
                associated_names := []; phone_associated_profiles := [] |}
      else
        Ok {| phone_is_valid := false; carrier := None; phone_location := None;
              associated_names := []; phone_associated_profiles := [] |}
  end.

(** [analyze_location] *)
Definition analyze_location (location : option string) : LocationAnalysis :=
  if use_apis then
    match geocode_location location with
    | Some coords =>
        {| location_is_valid := true; coordinates := Some coords;
           location_associated_profiles := search_nearby_profiles coords |}
    | None =>
        {| location_is_valid := false; coordinates := None;
           location_associated_profiles := [] |}
    end
  else
    {| location_is_valid := false; coordinates := None;
       location_associated_profiles := [] |}.

(** The weights of [calculate_authenticity_score]. *)
Definition weight_face_detected : Q := 0.3.
Definition weight_phone_valid : Q := 0.2.
Definition weight_location_valid : Q := 0.2.
Definition weight_image_quality : Q := 0.15.
Definition weight_profile_completeness : Q := 0.15.

(** [profile.get('image_analysis', {}).get('face_detected')] and its
    siblings. *)
Definition get_face_detected (profile : EnrichedProfile) : bool :=
  match image_analysis profile with
  | Some a => face_detected a
  | None => false
  end.

Definition get_phone_valid (profile : EnrichedProfile) : bool :=
  match phone_analysis profile with
  | Some a => phone_is_valid a
  | None => false
  end.

Definition get_location_valid (profile : EnrichedProfile) : bool :=
  match location_analysis profile with
  | Some a => location_is_valid a
  | None => false
  end.

Definition get_image_quality (profile : EnrichedProfile) : list Q :=
  match image_analysis profile with
  | Some a => image_quality a
  | None => []
  end.

(** [[bool(profile.get(field)) for field in required_fields]] *)
Definition required_fields (profile : EnrichedProfile) : list bool :=
  [ truthy_str (name (base profile));
    truthy_str (phone (base profile));
    truthy_str (location (base profile));
    truthy_list (images (base profile)) ].

(** [calculate_authenticity_score], statement by statement. *)
Definition calculate_authenticity_score (profile : EnrichedProfile) : Q :=
  let score := 0 in
  let score :=
    if get_face_detected profile then score + weight_face_detected else score in
  let score :=
    if get_phone_valid profile then score + weight_phone_valid else score in
  let score :=
    if get_location_valid profile then score + weight_location_valid else score in
  let image_qualities := get_image_quality profile in
  let score :=
    match image_qualities with
    | [] => score
    | _ :: _ =>
        let avg_quality :=
          Qsum image_qualities / inject_Z (Z.of_nat (length image_qualities)) in
        score + avg_quality * weight_image_quality
    end in
  let completeness :=
    inject_Z (Z.of_nat (length (filter (fun b => b = true) (required_fields profile))))
    / inject_Z (Z.of_nat (length (required_fields profile))) in
  let score := score + completeness * weight_profile_completeness in
  Qmin 1 score.

(** [analyze_profile]: the three branches in the order of the source; an
    exception that leaves a branch leaves [analyze_profile]. *)
Definition analyze_profile (profile : Profile) : result EnrichedProfile :=
  bind (required (images profile)) (fun image_urls =>
  let image_analysis := analyze_images <$> image_urls in
  bind (match phone profile with
        | Missing => Ok None
        | PyNone => rmap Some (analyze_phone None)
        | Val p => rmap Some (analyze_phone (Some p))
        end) (fun phone_analysis =>
  let location_analysis :=
    match location profile with
    | Missing => None
    | PyNone => Some (analyze_location None)
    | Val l => Some (analyze_location (Some l))
    end in
  let enriched_profile :=
    {| base := profile;
       image_analysis := image_analysis;
       phone_analysis := phone_analysis;
       location_analysis := location_analysis;
       authenticity_score := None |} in
  Ok {| base := profile;
        image_analysis := image_analysis;
        phone_analysis := phone_analysis;
        location_analysis := location_analysis;
        authenticity_score :=
          Some (calculate_authenticity_score enriched_profile) |})).

End WithServices.

End Analyzer.

(** ** Notions of the design document *)

Module Spec.

Local Open Scope Q_scope.

(** The prefix of [s] that ends before the first of [/], [?] and [#]. *)
Fixpoint authority (s : string) : string :=
  match s with
  | EmptyString => EmptyString
  | String c s' =>
      if Ascii.eqb c "/" || Ascii.eqb c "?" || Ascii.eqb c "#" then EmptyString
      else String c (authority s')
  end.

(** The origin of an absolute URL: scheme, [://] and authority. *)
Fixpoint origin (url : string) : option string :=
  match url with
  | EmptyString => None
  | String ":" (String "/" (String "/" rest)) => Some ("://" +:+ authority rest)
  | String c s' => String c <$> origin s'
  end.

(** The URL without its fragment. *)
Fixpoint strip_fragment (url : string) : string :=
  match url with
  | EmptyString => EmptyString
  | String c s' => if Ascii.eqb c "#" then EmptyString else String c (strip_fragment s')
  end.

(** The normalized form of a URL: the fragment is stripped, then the
    trailing slash. *)
Definition normalize (url : string) : string :=
  rstrip_slash (strip_fragment url).

Definition indicator (b : bool) : Q := if b then 1 else 0.

(** The arithmetic mean of the recorded quality scores, 0 when there is
    none. *)
Definition average_image_quality (qs : list Q) : Q :=
  match qs with
  | [] => 0
  | _ => fold_right Qplus 0 qs / inject_Z (Z.of_nat (length qs))
  end.

(** A field is present and non-empty. *)
Definition filled_str (s : slot string) : bool :=
  match s with
  | Val v => negb (String.eqb v "")
  | _ => false
  end.

Definition filled_list (s : slot (list string)) : bool :=
  match s with
  | Val v => negb (Nat.eqb (length v) 0)
  | _ => false
  end.

(** The fraction of name, phone, location and images that are present and
    non-empty on the base record. *)
Definition profile_completeness (p : Profile) : Q :=
  (indicator (filled_str (name p)) + indicator (filled_str (phone p))
   + indicator (filled_str (location p)) + indicator (filled_list (images p))) / 4.

(** The sum of the five weighted terms. *)
Definition weighted_sum (e : Analyzer.EnrichedProfile) : Q :=
  0.30 * indicator (Analyzer.get_face_detected e)
  + 0.20 * indicator (Analyzer.get_phone_valid e)
  + 0.20 * indicator (Analyzer.get_location_valid e)
  + 0.15 * average_image_quality (Analyzer.get_image_quality e)
  + 0.15 * profile_completeness (Analyzer.base e).

(** The encodings of the faces found in the images that could be
    downloaded, in the order of the list. *)
Definition faces_in_downloads
    (session_get : string -> result Analyzer.Response)
    (imdecode : list Byte.byte -> result (option Img.Image))
    (face_locations : Img.Image -> result (list Analyzer.Box))
    (face_recognition_encodings :
       Img.Image -> list Analyzer.Box -> result (list Analyzer.Encoding))
    (image_urls : list string) : list Analyzer.Encoding :=
  omap (fun url =>
          Analyzer.download_image session_get imdecode url
          ≫= Analyzer.detect_face face_locations face_recognition_encodings)
    image_urls.

(** The neighbours of position [i] on an axis of [n] positions.  Past an
    edge the axis is read as its mirror image about the edge, the edge
    itself not being repeated. *)
Definition before (n i : nat) : nat :=
  match i with
  | S k => k
  | O => if (1 <? n)%nat then 1%nat else O
  end.

Definition after (n i : nat) : nat :=
  if (S i <? n)%nat then S i else pred i.

(** The second difference of three consecutive values. *)
Definition second_difference (a b c : Z) : Z := ((c - b) - (b - a))%Z.

(** The discrete Laplacian of an array at a position: the second
    difference down the column plus the second difference along the row. *)
Definition discrete_laplacian (g : Img.grid Z) (i j : nat) : Z :=
  (second_difference (Img.cell g (before (Img.rows g) i) j) (Img.cell g i j)
     (Img.cell g (after (Img.rows g) i) j)
   + second_difference (Img.cell g i (before (Img.cols g) j)) (Img.cell g i j)
       (Img.cell g i (after (Img.cols g) j)))%Z.

(** The positions of an array. *)
Definition positions (g : Img.grid Z) : list (nat * nat) :=
  list_prod (seq 0 (Img.rows g)) (seq 0 (Img.cols g)).

(** The arithmetic mean. *)
Definition average (l : list Q) : Q :=
  fold_right Qplus 0 l / inject_Z (Z.of_nat (length l)).

(** The variance: the mean of the squares less the square of the mean. *)
Definition variance (l : list Q) : Q :=
  average (map (fun x => x * x) l) - average l * average l.

(** The sharpness proxy: the variance of the discrete Laplacian, divided
    by 500 and clipped to 1. *)
Definition sharpness (gray : Img.grid Z) : Q :=
  Qmin 1 (variance (map (fun p => inject_Z (discrete_laplacian gray (fst p) (snd p)))
                      (positions gray)) / 500).

(** The brightness proxy: the mean gray value, divided by 255 and clipped
    to 1. *)
Definition brightness (gray : Img.grid Z) : Q :=
  Qmin 1 (average (map (fun p => inject_Z (Img.cell gray (fst p) (snd p)))
                     (positions gray)) / 255).

End Spec.

(** ** Fixtures: small sites and records *)

Module Fixtures.

Import Scraper.

(** A page of a fixture site: the name its profile block shows and the
    [href]s of its anchors. *)
Record Page : Type := {
  page_name : option string;
  page_links : list string
}.

(** A parser that looks at the page only. *)
Definition fake_parse (w : World) (page : Page) : Profile :=
  {| name := opt_slot (page_name page);
     phone := PyNone; location := PyNone; age := PyNone; date := PyNone;
     message := PyNone; images := Val []; metadata := PyNone |}.

(** A fetcher that serves a fixed table of pages. *)
Fixpoint lookup_page (table : list (string * Page)) (url : string) : option Page :=
  match table with
  | [] => None
  | (u, page) :: rest => if String.eqb u url then Some page else lookup_page rest url
  end.

Definition serve (table : list (string * Page)) (w : World) (url : string)
    : option Page :=
  lookup_page table url.

Definition fresh : World := {| clock := 0; requests := [] |}.

Definition crawl (table : list (string * Page)) (seed : string) (depth_limit : Z)
    : list Profile * World :=
  _scrape_state Page page_links seed depth_limit (serve table) fake_parse "all" fresh.

(** The chain A -> B -> C -> D. *)
Definition url_A : string := "http://site.test".
Definition url_B : string := "http://site.test/b".
Definition url_C : string := "http://site.test/c".
Definition url_D : string := "http://site.test/d".

Definition chain : list (string * Page) :=
  [ (url_A, {| page_name := None; page_links := ["/b"%string] |});
    (url_B, {| page_name := None; page_links := [url_C] |});
    (url_C, {| page_name := None; page_links := ["/d"%string] |});
    (url_D, {| page_name := None; page_links := [] |}) ].

(** A site whose front page links to a host that merely begins with the
    seed's text. *)
Definition url_shop : string := "http://shop.test".
Definition url_elsewhere : string := "http://shop.test.evil.example/login".

Definition lookalike : list (string * Page) :=
  [ (url_shop, {| page_name := None; page_links := [url_elsewhere] |});
    (url_elsewhere, {| page_name := None; page_links := [] |}) ].

(** A site whose front page links to one page under three spellings. *)
Definition url_page : string := "http://shop.test/page".
Definition url_page_fragment : string := "http://shop.test/page#top".
Definition url_page_slash : string := "http://shop.test/page/".

Definition spellings : list (string * Page) :=
  [ (url_shop, {| page_name := None;
                  page_links := ["/page"; "/page#top"; "/page/"]%string |});
    (url_page, {| page_name := None; page_links := [] |});
    (url_page_fragment, {| page_name := None; page_links := [] |});
    (url_page_slash, {| page_name := None; page_links := [] |}) ].

(** A site with two profile pages. *)
Definition listing : list (string * Page) :=
  [ (url_shop, {| page_name := None;
                  page_links := ["/profile/1"; "/profile/2"; "/profile/1"]%string |});
    ("http://shop.test/profile/1"%string,
      {| page_name := Some "Ada"%string; page_links := ["/profile/2"%string] |});
    ("http://shop.test/profile/2"%string,
      {| page_name := Some "Bob"%string; page_links := [url_shop] |}) ].

(** What [parse_profile] returns for a page on which no selector finds
    anything. *)
Definition blank_record : Profile :=
  {| name := PyNone; phone := PyNone; location := PyNone; age := PyNone;
     date := PyNone; message := PyNone; images := Val [];
     metadata := Val {| scraped_at := 0; source_url := url_shop |} |}.



(** A record with one image, and services under which the download of
    every image fails. *)
Definition one_image_record : Profile :=
  {| name := Val "Ada"%string; phone := Val "555-123-4567"%string;
     location := PyNone; age := PyNone; date := PyNone; message := PyNone;
     images := Val ["http://shop.test/a.jpg"%string];
     metadata := PyNone |}.

(** The same record as [parse_profile] builds it for a page that shows no
    phone number. *)
Definition one_image_no_phone : Profile :=
  {| name := Val "Ada"%string; phone := PyNone;
     location := PyNone; age := PyNone; date := PyNone; message := PyNone;
     images := Val ["http://shop.test/a.jpg"%string];
     metadata := PyNone |}.

Definition offline (url : string) : result Analyzer.Response := Raise ValueError.
Definition no_decoder (data : list Byte.byte) : result (option Img.Image) := Ok None.
Definition no_faces (image : Img.Image) : result (list Analyzer.Box) := Ok [].
Definition no_encodings (image : Img.Image) (boxes : list Analyzer.Box)
    : result (list Analyzer.Encoding) := Ok [].

(** Services that deliver: every URL answers 200 with a body that decodes
    to a 2 by 2 gray image, in which one face is found. *)
Definition online (url : string) : result Analyzer.Response :=
  Ok {| Analyzer.status := 200; Analyzer.body := [] |}.
Definition gray_decoder (data : list Byte.byte) : result (option Img.Image) :=
  Ok (Some (Img.uniform 2 2 100)).
Definition one_face (image : Img.Image) : result (list Analyzer.Box) :=
  Ok [(0, 2, 2, 0)].
Definition one_encoding (image : Img.Image) (boxes : list Analyzer.Box)
    : result (list Analyzer.Encoding) := Ok [[0.5%Q]].

(** A 2 by 2 image of two gray levels: [a] on the diagonal, [b] off it. *)
Definition checkerboard (a b : N) : Img.Image :=
  {| Img.rows := 2; Img.cols := 2;
     Img.cell := fun i j => if (i =? j)%nat then (a, a, a) else (b, b, b) |}.

End Fixtures.

(** ** Predicates used to state the properties *)

Module Trace.

Import Scraper.

(** [st'] is reached from [st] by issuing requests, each for a URL that was
    not visited in [st] and is visited in [st'], no URL twice, each at a
    depth between [lo] and [hi] and for a URL accepted by [ok]. *)
Definition extends (hi : Z) (ok : string -> Prop) (lo : Z)
    (st st' : CrawlState) : Prop :=
  visited_urls st ⊆ visited_urls st' ∧
  ∃ seg : list (string * Z),
    requests (world st') = requests (world st) ++ seg ∧
    NoDup seg.*1 ∧
    Forall (fun r => (fst r ∉ visited_urls st) ∧ (fst r ∈ visited_urls st') ∧
                     (lo ≤ snd r ≤ hi) ∧ ok (fst r)) seg.

(** [st1'] and [st2'] are reached from [st1] and [st2] by the same
    requests and the same new profiles, and visit the same URLs. *)
Definition in_step (st1 st1' st2 st2' : CrawlState) : Prop :=
  visited_urls st1' = visited_urls st2' ∧
  ∃ (seg : list (string * Z)) (found : list Profile),
    requests (world st1') = requests (world st1) ++ seg ∧
    requests (world st2') = requests (world st2) ++ seg ∧
    profiles st1' = profiles st1 ++ found ∧
    profiles st2' = profiles st2 ++ found.

End Trace.

(** ** Text helpers and searching ([str.strip], [re.search], [int]) *)

Module Text.

(** [s.lstrip()] *)
Fixpoint lstrip (s : string) : string :=
  match s with
  | String c s' => if Re.is_space c then lstrip s' else s
  | EmptyString => EmptyString
  end.

(** [s.rstrip()] *)
Fixpoint rstrip (s : string) : string :=
  match s with
  | EmptyString => EmptyString
  | String c s' =>
      match rstrip s' with
      | EmptyString => if Re.is_space c then EmptyString else String c EmptyString
      | t => String c t
      end
  end.

(** [s.strip()] *)
Definition strip (s : string) : string := rstrip (lstrip s).

(** [s[:n]] *)
Fixpoint take (n : nat) (s : string) : string :=
  match n, s with
  | S n', String c s' => String c (take n' s')
  | _, _ => EmptyString
  end.

(** Some character of [s] satisfies [p]. *)
Fixpoint any (p : ascii -> bool) (s : string) : bool :=
  match s with
  | String c s' => p c || any p s'
  | EmptyString => false
  end.

(** Every character of [s] satisfies [p]. *)
Fixpoint all (p : ascii -> bool) (s : string) : bool :=
  match s with
  | String c s' => p c && all p s'
  | EmptyString => true
  end.

(** [pattern.search(s).group(0)]: the first match at the leftmost position
    that has one, [None] when no position has. *)
Fixpoint search (r : Re.regex) (s : string) : option string :=
  match Re.rests r s with
  | rest :: _ => Some (take (String.length s - String.length rest) s)
  | [] =>
      match s with
      | String _ s' => search r s'
      | EmptyString => None
      end
  end.

(** The number of characters of [s] that satisfy [p]. *)
Fixpoint count (p : ascii -> bool) (s : string) : nat :=
  match s with
  | String c s' => ((if p c then 1 else 0) + count p s')%nat
  | EmptyString => O
  end.

(** The number a string of ASCII digits denotes. *)
Definition digit_value (c : ascii) : Z := Z.of_nat (nat_of_ascii c) - 48.

Fixpoint int_from (acc : Z) (s : string) : Z :=
  match s with
  | String c s' => int_from (10 * acc + digit_value c) s'
  | EmptyString => acc
  end.

(** [sys.get_int_max_str_digits()], the default of the interpreter. *)
Definition int_max_str_digits : nat := 4300.

(** [int(s)] for a string of ASCII digits: a string of more digits than
    the limit is refused with [ValueError]. *)
Definition int (s : string) : result Z :=
  if (int_max_str_digits <? String.length s)%nat then Raise ValueError
  else Ok (int_from 0 s).

(** A string matches a pattern as a whole. *)
Inductive matches : Re.regex -> string -> Prop :=
| matches_class p c : p c = true -> matches (Re.Class p) (String c EmptyString)
| matches_opt_some r m : matches r m -> matches (Re.Opt r) m
| matches_opt_none r : matches (Re.Opt r) EmptyString
| matches_star_nil p : matches (Re.StarClass p) EmptyString
| matches_star_cons p c m :
    p c = true -> matches (Re.StarClass p) m -> matches (Re.StarClass p) (String c m)
| matches_seq r1 r2 m1 m2 :
    matches r1 m1 -> matches r2 m2 -> matches (Re.Seq r1 r2) (m1 +:+ m2).

(** The least number of characters a match of the pattern has. *)
Fixpoint min_length (r : Re.regex) : nat :=
  match r with
  | Re.Class _ => 1
  | Re.Opt _ => 0
  | Re.StarClass _ => 0
  | Re.Seq r1 r2 => min_length r1 + min_length r2
  end.

End Text.

(** ** The selectors of [ProfileScraper] ([profile_scraper.py], lines 13-53) *)

Module Extract.

Import Text.

(** [[\d\s-]] *)
Definition is_phone_char (c : ascii) : bool :=
  Re.is_digit c || Re.is_space c || Ascii.eqb c "-".

(** [\+?[\d\s-]+], line 22 *)
Definition phone_text_pattern : Re.regex :=
  Re.Seq (Re.Opt (Re.chr "+"))
    (Re.Seq (Re.Class is_phone_char) (Re.StarClass is_phone_char)).

(** [\d+], line 34 *)
Definition age_pattern : Re.regex :=
  Re.Seq (Re.Class Re.is_digit) (Re.StarClass Re.is_digit).

Section WithSoup.

Variable Html : Type.

(** [soup.find(tag, class_=cls)], as the [.text] of the element found. *)
Variable find_text : string -> string -> Html -> option string.

(** [soup.find_all('img', class_='profile-image')], as the [src] attribute
    of each element, [None] when it has none. *)
Variable find_all_img_src : Html -> list (option string).

Definition _extract_name (soup : Html) : option string :=
  strip <$> find_text "h1" "profile-name" soup.

Definition _extract_phone (soup : Html) : option string :=
  match find_text "div" "phone-number" soup with
  | Some text =>
      let phone_text := strip text in
      search phone_text_pattern phone_text
  | None => None
  end.

Definition _extract_location (soup : Html) : option string :=
  strip <$> find_text "div" "location" soup.

(** [re.search(...)] is [None] when the text has no digit, and the
    [AttributeError] of [.group] is caught; so is the [ValueError] of
    [int]. *)
Definition _extract_age (soup : Html) : option Z :=
  match find_text "div" "age" soup with
  | Some text =>
      match search age_pattern text with
      | None => None
      | Some digits =>
          match int digits with
          | Ok age => Some age
          | Raise _ => None
          end
      end
  | None => None
  end.

Definition _extract_date (soup : Html) : option string :=
  strip <$> find_text "div" "date-posted" soup.

Definition _extract_message (soup : Html) : option string :=
  strip <$> find_text "div" "message" soup.

(** [img.get('src')] is true of a [src] that is there and not empty. *)
Definition _extract_images (soup : Html) : list string :=
  omap (fun src =>
          match src with
          | Some (String c s) => Some (String c s)
          | _ => None
          end) (find_all_img_src soup).

(** [parse_profile] of a [ProfileScraper]. *)
Definition parse_profile (base_url : string) (w : World) (html_content : Html)
    : Profile :=
  Scraper.parse_profile Html _extract_name _extract_phone _extract_location
    _extract_age _extract_date _extract_message _extract_images
    base_url w html_content.

End WithSoup.

End Extract.

(** ** Loops whose body may raise *)

Module PyList.

(** [[f(x) for x in l]], or a loop that appends [f(x)] for each [x]: the
    first exception ends it. *)
Fixpoint try_map {A B} (f : A -> result B) (l : list A) : result (list B) :=
  match l with
  | [] => Ok []
  | x :: rest =>
      match f x with
      | Raise e => Raise e
      | Ok y =>
          match try_map f rest with
          | Raise e => Raise e
          | Ok ys => Ok (y :: ys)
          end
      end
  end.

(** [len(d.get(key, default))] for a default of length 0: [None] under the
    key is a [TypeError]. *)
Definition len_of {A} (measure : A -> nat) (s : slot A) : result nat :=
  match s with
  | Missing => Ok O
  | PyNone => Raise TypeError
  | Val a => Ok (measure a)
  end.

End PyList.

(** ** The application ([main.py]) *)

Module App.

Import PyList.

(** The command line, as [argparse] returns it. *)
Record Args : Type := {
  arg_url : string;
  arg_states : list string;
  arg_use_apis : bool;
  arg_depth : Z
}.

(** The default of [ProfileScraper.__init__]. *)
Definition default_max_depth : Z := 2.

Section WithEnvironment.

Variable Html : Type.
Variable find_all_a_href : Html -> list string.
Variable find_text : string -> string -> Html -> option string.
Variable find_all_img_src : Html -> list (option string).
Variable get_page_content : World -> string -> option Html.
Variable session_get : string -> result Analyzer.Response.
Variable imdecode : list Byte.byte -> result (option Img.Image).
Variable face_locations : Img.Image -> result (list Analyzer.Box).
Variable face_recognition_encodings :
  Img.Image -> list Analyzer.Box -> result (list Analyzer.Encoding).

(** [await self.initialize()] for a scraper that uses Selenium, the
    default: [webdriver.Chrome(options=...)] starts the browser, or
    raises. *)
Variable initialize : World -> option exn.

(** [await self.close()] once the browser has started: [self.driver.quit()]
    returns, or raises. *)
Variable close : World -> option exn.

(** The loop of [scrape_profiles] for the scraper [ProfileScraper(base_url)]
    of [DataSnatch.__init__]. *)
Definition scrape (base_url : string) (states : option (list string)) (w : World)
    : list Profile * World :=
  Scraper.scrape_profiles Html find_all_a_href base_url default_max_depth
    get_page_content (Extract.parse_profile Html find_text find_all_img_src base_url)
    states w.

(** [self.scraper.scrape_profiles(states)], lines 102-116: the loop runs
    between [initialize()] and [close()].  When [initialize()] raises, no
    browser has started, [close()] finds neither driver nor session, and
    the exception leaves [scrape_profiles]; an exception of [close()]
    leaves it as well, in place of the profiles. *)
Definition scraper_scrape_profiles (base_url : string)
    (states : option (list string)) (w : World)
    : result (list Profile) * World :=
  match initialize w with
  | Some e => (Raise e, w)
  | None =>
      let '(profiles, w') := scrape base_url states w in
      match close w' with
      | Some e => (Raise e, w')
      | None => (Ok profiles, w')
      end
  end.

(** Lines 47-50: the loop that analyzes the profiles one after the other. *)
Definition analyze_all (use_apis : bool) (profiles : list Profile)
    : result (list Analyzer.EnrichedProfile) :=
  try_map (Analyzer.analyze_profile use_apis session_get imdecode
             face_locations face_recognition_encodings) profiles.

(** [process_profiles], steps 1 to 3: the value is the list handed to
    [save_profiles]; an exception is logged and raised again. *)
Definition process_profiles (base_url : string) (use_apis : bool)
    (states : option (list string)) (w : World)
    : result (list Analyzer.EnrichedProfile) * World :=
  match scraper_scrape_profiles base_url states w with
  | (Ok profiles, w') => (analyze_all use_apis profiles, w')
  | (Raise e, w') => (Raise e, w')
  end.

(** [main]: [DataSnatch(args.url, use_apis=args.use_apis)], then
    [process_profiles(args.states)]. *)
Definition main (args : Args) (w : World)
    : result (list Analyzer.EnrichedProfile) * World :=
  process_profiles (arg_url args) (arg_use_apis args) (Some (arg_states args)) w.

End WithEnvironment.

End App.

(** ** The settings ([config/settings.py]) *)

Module Settings.

Section WithEnv.

(** [os.getenv] *)
Variable getenv : string -> option string.

Definition API_CONFIG : gmap string (option string) :=
  list_to_map
    [ ("google_api_key"%string, getenv "GOOGLE_API_KEY");
      ("face_api_key"%string, getenv "FACE_API_KEY");
      ("phone_api_key"%string, getenv "PHONE_API_KEY");
      ("location_api_key"%string, getenv "LOCATION_API_KEY") ].

(** [API_CONFIG.get(f'{service}_api_key')] *)
Definition get_api_key (service : string) : option string :=
  match API_CONFIG !! (service +:+ "_api_key") with
  | Some value => value
  | None => None
  end.

(** [bool(get_api_key(service))] *)
Definition is_api_enabled (service : string) : bool :=
  match get_api_key service with
  | Some (String _ _) => true
  | _ => false
  end.

End WithEnv.

(** The services of [API_CONFIG] and the variables that hold their keys. *)
Definition services : list (string * string) :=
  [ ("google", "GOOGLE_API_KEY"); ("face", "FACE_API_KEY");
    ("phone", "PHONE_API_KEY"); ("location", "LOCATION_API_KEY") ]%string.

End Settings.

(** ** The data the visualizer plots ([profile_visualizer.py]) *)

Module Visualizer.

Import PyList Analyzer.

(** Lines 55-59 of [visualize_location_heatmap]: the coordinates of the
    profiles whose location analysis is valid and has coordinates. *)
Definition heatmap_coordinates (profiles : list EnrichedProfile) : list (Q * Q) :=
  omap (fun profile =>
          match location_analysis profile with
          | Some la => if location_is_valid la then coordinates la else None
          | None => None
          end) profiles.

(** Lines 174-177 of [visualize_image_quality_distribution]. *)
Definition quality_scores (profiles : list EnrichedProfile) : list Q :=
  flat_map get_image_quality profiles.

(** Line 134: the ages that are there and are not 0. *)
Definition ages (profiles : list EnrichedProfile) : list Z :=
  omap (fun p =>
          match age (base p) with
          | Val n => if (n =? 0)%Z then None else Some n
          | _ => None
          end) profiles.

(** Line 142 *)
Definition image_counts (profiles : list EnrichedProfile) : result (list nat) :=
  try_map (fun p => len_of (@length string) (images (base p))) profiles.

(** Line 158 *)
Definition message_lengths (profiles : list EnrichedProfile) : result (list nat) :=
  try_map (fun p => len_of String.length (message (base p))) profiles.

(** The lists [visualize_profile_stats] computes, in the order it computes
    them (lines 134, 142, 150 and 158). *)
Definition profile_stats_data (profiles : list EnrichedProfile)
    : result (list Z * list nat * list Q * list nat) :=
  let the_ages := ages profiles in
  bind (image_counts profiles) (fun counts =>
  let completeness :=
    map (fun p =>
           (inject_Z (Z.of_nat (length (filter (fun b => b = true) (required_fields p))))
            / inject_Z (Z.of_nat (length (required_fields p))))%Q) profiles in
  bind (message_lengths profiles) (fun lengths =>
  Ok (the_ages, counts, completeness, lengths))).

End Visualizer.

(** ** Notions derived from the records *)

Module Derived.

(** The phone of a record is a string that [phone_pattern] accepts. *)
Definition has_valid_phone (p : Profile) : bool :=
  match phone p with
  | Val ph => Re.re_match Re.phone_pattern ph
  | _ => false
  end.

(** The profile a request contributes to the result of a crawl, for a
    fetcher and a parser that do not look at the world: the parsed page,
    when the URL has the profile marker and the page could be fetched. *)
Definition found_at {Html} (fetch : string -> option Html) (parse : Html -> Profile)
    (request : string * Z) : option Profile :=
  if contains (lower (fst request)) "profile"
  then parse <$> fetch (fst request)
  else None.

End Derived.

(** * Properties of the crawler *)

Section CrawlFacts.

Import Scraper Trace.

Variable Html : Type.
Variable find_all_a_href : Html -> list string.
Variable base_url : string.
Variable max_depth : Z.
Variable get_page_content : World -> string -> option Html.
Variable self_parse_profile : World -> Html -> Profile.

Local Abbreviation crawl_page_rec :=
  (crawl_page_rec Html find_all_a_href base_url max_depth
     get_page_content self_parse_profile).
Local Abbreviation crawl_page :=
  (crawl_page Html find_all_a_href base_url max_depth
     get_page_content self_parse_profile).
Local Abbreviation _scrape_state :=
  (_scrape_state Html find_all_a_href base_url max_depth
     get_page_content self_parse_profile).
Local Abbreviation scrape_states :=
  (scrape_states Html find_all_a_href base_url max_depth
     get_page_content self_parse_profile).
Local Abbreviation scrape_profiles :=
  (scrape_profiles Html find_all_a_href base_url max_depth
     get_page_content self_parse_profile).
Local Abbreviation follow_link := (follow_link base_url).
Local Abbreviation refuses := (refuses max_depth).
Local Abbreviation extends := (extends max_depth).

Lemma refuses_true url depth st :
  refuses url depth st = true ↔ max_depth < depth ∨ url ∈ visited_urls st.
Proof.
  unfold Scraper.refuses. rewrite orb_true_iff, Z.ltb_lt, bool_decide_eq_true.
  tauto.
Qed.

Lemma refuses_false url depth st :
  refuses url depth st = false ↔ depth ≤ max_depth ∧ url ∉ visited_urls st.
Proof.
  unfold Scraper.refuses. rewrite orb_false_iff, Z.ltb_ge, bool_decide_eq_false.
  tauto.
Qed.

Lemma extends_refl ok lo st : extends ok lo st st.
Proof.
  split; [done|]. exists []. rewrite app_nil_r.
  repeat split; [constructor | constructor].
Qed.

Lemma extends_weaken (ok ok' : string -> Prop) lo lo' st st' :
  (∀ u, ok u → ok' u) → lo' ≤ lo →
  extends ok lo st st' → extends ok' lo' st st'.
Proof.
  intros Hok Hlo [Hsub (seg & Hreq & Hnd & Hall)].
  split; [done|]. exists seg. repeat split; [done..|].
  eapply Forall_impl; [exact Hall|]. simpl.
  intros r (? & ? & ? & ?). repeat split; auto; lia.
Qed.

Lemma extends_trans ok lo st1 st2 st3 :
  extends ok lo st1 st2 → extends ok lo st2 st3 → extends ok lo st1 st3.
Proof.
  intros [Hsub1 (seg1 & Hreq1 & Hnd1 & Hall1)] [Hsub2 (seg2 & Hreq2 & Hnd2 & Hall2)].
  split; [by etrans|]. exists (seg1 ++ seg2).
  rewrite Forall_forall in Hall1, Hall2.
  split; [by rewrite Hreq2, Hreq1, app_assoc|]. split.
  - rewrite fmap_app. apply NoDup_app. repeat split; [done| |done].
    intros u Hu1 Hu2.
    apply list_elem_of_fmap in Hu1 as (r1 & -> & Hr1).
    apply list_elem_of_fmap in Hu2 as (r2 & Heq & Hr2).
    destruct (Hall1 r1 Hr1) as (_ & Hin & _).
    destruct (Hall2 r2 Hr2) as (Hnotin & _).
    rewrite Heq in Hin. done.
  - rewrite Forall_forall. intros r Hr.
    apply elem_of_app in Hr as [Hr|Hr].
    + destruct (Hall1 r Hr) as (? & ? & ? & ?).
      repeat split; [done|by apply Hsub2|lia|lia|done].
    + destruct (Hall2 r Hr) as (? & ? & ? & ?).
      repeat split; [by intros ?%Hsub1|done|lia|lia|done].
Qed.

(** The loop over the links, given what each recursive call does. *)
Lemma follow_links_extends (recurse : string -> CrawlState -> CrawlState) lo :
  (∀ href st, startswith href base_url = true →
     extends (fun u => startswith u base_url = true) lo st (recurse href st)) →
  ∀ links st,
    extends (fun u => startswith u base_url = true) lo st
      (fold_left (follow_link recurse) links st).
Proof.
  intros Hrec links. induction links as [|link links IH]; intros st; simpl.
  - apply extends_refl.
  - eapply extends_trans; [|apply IH].
    unfold Scraper.follow_link.
    destruct (startswith (resolve base_url link) base_url) eqn:Hpre; simpl.
    + destruct (bool_decide _); simpl; [apply extends_refl | by apply Hrec].
    + apply extends_refl.
Qed.

(** What one activation of [crawl_page] does to the state. *)
Lemma crawl_page_rec_extends fuel : ∀ url depth st,
  extends (fun u => u = url ∨ startswith u base_url = true) depth st
    (crawl_page_rec fuel url depth st).
Proof.
  induction fuel as [|fuel IH]; intros url depth st; simpl.
  - destruct (refuses url depth st); apply extends_refl.
  - destruct (refuses url depth st) eqn:Href; [apply extends_refl|].
    apply refuses_false in Href as [Hdepth Hfresh].
    assert (Hone : ∀ ps,
      extends (fun u => u = url ∨ startswith u base_url = true) depth st
        {| visited_urls := {[url]} ∪ visited_urls st; profiles := ps;
           world := record_request url depth (world st) |}).
    { intros ps. split; [simpl; apply union_subseteq_r|]. exists [(url, depth)].
      simpl. repeat split.
      - apply NoDup_singleton.
      - constructor; [|constructor]. simpl.
        repeat split; [done| |lia|lia|by left].
        apply elem_of_union_l, elem_of_singleton. reflexivity. }
    destruct (get_page_content _ url) as [content|]; [|apply Hone].
    eapply extends_trans.
    + apply (Hone (profiles
        (if contains (lower url) "profile"
         then append_profile
                (self_parse_profile (record_request url depth (world st)) content)
                (set_world (record_request url depth (world st)) (mark_visited url st))
         else set_world (record_request url depth (world st)) (mark_visited url st)))).
    + match goal with |- context [fold_left _ _ ?s] => set (st3 := s) end.
      assert (Hst3 : ∀ ps, ps = profiles st3 →
        {| visited_urls := {[url]} ∪ visited_urls st; profiles := ps;
           world := record_request url depth (world st) |} = st3).
      { intros ps ->. unfold st3. by destruct (contains _ _). }
      rewrite (Hst3 _ eq_refl).
      eapply extends_weaken; [| |apply follow_links_extends].
      * intros u Hu. right. exact Hu.
      * apply Z.le_succ_diag_r.
      * intros href st' Hpre.
        eapply extends_weaken; [| |apply IH]; [|lia].
        intros u [->|Hu]; done.
Qed.

Lemma fold_left_pointwise {A B} (f g : A -> B -> A) :
  (∀ a b, f a b = g a b) → ∀ l a, fold_left f l a = fold_left g l a.
Proof.
  intros Hfg l. induction l as [|b l IH]; intros a; simpl; [done|].
  by rewrite Hfg, IH.
Qed.

(** Any amount of fuel above the number of levels left gives the same
    result: the branch at [O] is not taken. *)
Lemma crawl_page_rec_fuel fuel1 : ∀ fuel2 url depth st,
  (levels_left max_depth depth ≤ fuel1)%nat →
  (levels_left max_depth depth ≤ fuel2)%nat →
  crawl_page_rec fuel1 url depth st = crawl_page_rec fuel2 url depth st.
Proof.
  unfold levels_left.
  induction fuel1 as [|fuel1 IH]; intros [|fuel2] url depth st H1 H2; simpl;
    try reflexivity.
  - destruct (refuses url depth st) eqn:Href; [done|].
    apply refuses_false in Href. lia.
  - destruct (refuses url depth st) eqn:Href; [done|].
    apply refuses_false in Href. lia.
  - destruct (refuses url depth st) eqn:Href; [done|].
    apply refuses_false in Href as [Hdepth _].
    destruct (get_page_content _ url) as [content|]; [|done].
    apply fold_left_pointwise. intros st' link. unfold Scraper.follow_link.
    destruct (_ && _); [|done]. apply IH; lia.
Qed.

Lemma startswith_refl s : startswith s s = true.
Proof. induction s as [|c s IH]; simpl; [done|]. by rewrite Ascii.eqb_refl. Qed.

Lemma issued_app w w' seg :
  requests w' = requests w ++ seg → issued w w' = seg.
Proof. unfold issued. intros ->. by rewrite drop_app_length. Qed.

(** One crawl, from the fresh state of [_scrape_state]. *)
Lemma scrape_state_requests state w :
  NoDup (issued w (snd (_scrape_state state w))).*1 ∧
  Forall (fun r => 0 ≤ snd r ≤ max_depth ∧ startswith (fst r) base_url = true)
    (issued w (snd (_scrape_state state w))).
Proof.
  unfold Scraper._scrape_state, Scraper.crawl_page. simpl.
  destruct (crawl_page_rec_extends (levels_left max_depth 0) base_url 0
              (fresh_state w))
    as [_ (seg & Hreq & Hnd & Hall)].
  simpl in Hreq. rewrite (issued_app _ _ _ Hreq). split; [done|].
  eapply Forall_impl; [exact Hall|]. simpl.
  intros r (_ & _ & Hd & [->|Hpre]); split; auto using startswith_refl.
Qed.

(** *** Runs that do not depend on the world *)

Section Deterministic.

Hypothesis fetch_fixed :
  ∀ w w' url, get_page_content w url = get_page_content w' url.
Hypothesis parse_fixed :
  ∀ w w' content, self_parse_profile w content = self_parse_profile w' content.

Lemma in_step_refl st1 st2 :
  visited_urls st1 = visited_urls st2 → in_step st1 st1 st2 st2.
Proof.
  intros Hv. split; [done|]. exists [], []. by rewrite !app_nil_r.
Qed.

Lemma in_step_trans st1 st1' st1'' st2 st2' st2'' :
  in_step st1 st1' st2 st2' → in_step st1' st1'' st2' st2'' →
  in_step st1 st1'' st2 st2''.
Proof.
  intros [_ (seg & found & Hr1 & Hr2 & Hp1 & Hp2)]
         [Hv (seg' & found' & Hr1' & Hr2' & Hp1' & Hp2')].
  split; [done|]. exists (seg ++ seg'), (found ++ found').
  rewrite Hr1', Hr2', Hp1', Hp2', Hr1, Hr2, Hp1, Hp2.
  by rewrite !app_assoc.
Qed.

Lemma follow_links_in_step (recurse : string -> CrawlState -> CrawlState) :
  (∀ href st1 st2, visited_urls st1 = visited_urls st2 →
     in_step st1 (recurse href st1) st2 (recurse href st2)) →
  ∀ links st1 st2, visited_urls st1 = visited_urls st2 →
    in_step st1 (fold_left (follow_link recurse) links st1)
            st2 (fold_left (follow_link recurse) links st2).
Proof.
  intros Hrec links. induction links as [|link links IH]; intros st1 st2 Hv; simpl.
  - by apply in_step_refl.
  - assert (Hone : in_step st1 (follow_link recurse st1 link)
                           st2 (follow_link recurse st2 link)).
    { unfold Scraper.follow_link. rewrite Hv.
      destruct (_ && _); [by apply Hrec | by apply in_step_refl]. }
    eapply in_step_trans; [exact Hone|]. apply IH. apply Hone.
Qed.

Lemma crawl_page_rec_in_step fuel : ∀ url depth st1 st2,
  visited_urls st1 = visited_urls st2 →
  in_step st1 (crawl_page_rec fuel url depth st1)
          st2 (crawl_page_rec fuel url depth st2).
Proof.
  induction fuel as [|fuel IH]; intros url depth st1 st2 Hv; simpl;
    unfold Scraper.refuses; rewrite Hv.
  - destruct (_ || _); by apply in_step_refl.
  - destruct (_ || _); [by apply in_step_refl|].
    rewrite (fetch_fixed (world st1) (world st2)).
    destruct (get_page_content (world st2) url) as [content|].
    + rewrite (parse_fixed (record_request url depth (world st1))
                           (record_request url depth (world st2))).
      destruct (contains (lower url) "profile").
      * eapply in_step_trans;
          [|apply follow_links_in_step;
              [intros href s1 s2 Hs; by apply IH | simpl; by rewrite Hv]].
        split; [simpl; by rewrite Hv|].
        by exists [(url, depth)],
          [self_parse_profile (record_request url depth (world st2)) content].
      * eapply in_step_trans;
          [|apply follow_links_in_step;
              [intros href s1 s2 Hs; by apply IH | simpl; by rewrite Hv]].
        split; [simpl; by rewrite Hv|].
        exists [(url, depth)], []. simpl. by rewrite !app_nil_r.
    + split; [simpl; by rewrite Hv|].
      exists [(url, depth)], []. simpl. by rewrite !app_nil_r.
Qed.

Lemma scrape_state_fixed state w w' :
  ∃ seg,
    requests (snd (_scrape_state state w)) = requests w ++ seg ∧
    requests (snd (_scrape_state state w')) = requests w' ++ seg ∧
    fst (_scrape_state state w) = fst (_scrape_state state w').
Proof.
  unfold Scraper._scrape_state, Scraper.crawl_page. simpl.
  destruct (crawl_page_rec_in_step (levels_left max_depth 0) base_url 0
              (fresh_state w) (fresh_state w') eq_refl)
    as [_ (seg & found & Hr1 & Hr2 & Hp1 & Hp2)].
  simpl in *. exists seg. by rewrite Hp1, Hp2.
Qed.

Lemma scrape_states_fixed states : ∀ acc w w',
  ∃ seg,
    requests (snd (scrape_states states acc w)) = requests w ++ seg ∧
    requests (snd (scrape_states states acc w')) = requests w' ++ seg ∧
    fst (scrape_states states acc w) = fst (scrape_states states acc w').
Proof.
  induction states as [|state states IH]; intros acc w w';
    cbn -[Scraper._scrape_state].
  - exists []. by rewrite !app_nil_r.
  - destruct (scrape_state_fixed state w w') as (seg & Hr1 & Hr2 & Hp).
    destruct (_scrape_state state w) as [ps1 w1].
    destruct (_scrape_state state w') as [ps2 w2].
    simpl in *. subst ps2.
    destruct (IH (acc ++ ps1) w1 w2) as (seg' & Hr1' & Hr2' & Hp').
    exists (seg ++ seg'). rewrite Hr1', Hr2', Hr1, Hr2.
    by rewrite !app_assoc.
Qed.

End Deterministic.

(** The equation of the source: past the test of line 61, [crawl_page]
    marks the URL, requests it, and follows the links with itself at
    [depth + 1]. *)
Lemma crawl_page_unfold url depth st :
  crawl_page url depth st =
  if refuses url depth st then st
  else
    let st1 := mark_visited url st in
    let w := record_request url depth (world st1) in
    match get_page_content (world st1) url with
    | None => set_world w st1
    | Some content =>
        let st2 := set_world w st1 in
        let st3 :=
          if contains (lower url) "profile"
          then append_profile (self_parse_profile (world st2) content) st2
          else st2 in
        fold_left (follow_link (fun href => crawl_page href (depth + 1)))
          (find_all_a_href content) st3
    end.
Proof.
  unfold Scraper.crawl_page.
  destruct (refuses url depth st) eqn:Href.
  - destruct (levels_left max_depth depth); simpl; by rewrite Href.
  - pose proof Href as Hr. apply refuses_false in Hr as [Hdepth _].
    rewrite (crawl_page_rec_fuel _ (S (levels_left max_depth (depth + 1))));
      unfold levels_left; [|lia..].
    simpl. by rewrite Href.
Qed.

Lemma crawl_page_extends url depth st :
  extends (fun u => u = url ∨ startswith u base_url = true) depth st
    (crawl_page url depth st).
Proof. apply crawl_page_rec_extends. Qed.

Lemma follow_links_crawl_page_extends depth links st :
  extends (fun u => startswith u base_url = true) (depth + 1) st
    (fold_left (follow_link (fun href => crawl_page href (depth + 1))) links st).
Proof.
  apply follow_links_extends. intros href st' Hpre.
  eapply extends_weaken; [| |apply crawl_page_extends]; [|lia].
  intros u [->|Hu]; done.
Qed.

(** Past the test of line 61 the URL is in the visited set, whatever the
    request does. *)
Lemma crawl_page_marks url depth st :
  refuses url depth st = false → url ∈ visited_urls (crawl_page url depth st).
Proof.
  intros Href. rewrite crawl_page_unfold, Href. simpl.
  destruct (get_page_content (world st) url) as [content|];
    [|simpl; apply elem_of_union_l, elem_of_singleton; reflexivity].
  match goal with |- _ ∈ visited_urls (fold_left _ ?l ?s) =>
    destruct (follow_links_crawl_page_extends depth l s) as [Hsub _]
  end.
  apply Hsub.
  destruct (contains _ _); simpl;
    apply elem_of_union_l, elem_of_singleton; reflexivity.
Qed.

End CrawlFacts.

(** ** The claims about the crawler *)

Section CrawlerClaims.

Import Scraper Fixtures.

(** C2.  Whatever the site, the seed and the limit, every request of a
    crawl is issued by an activation of [crawl_page] whose depth lies
    between 0 and [max_depth]; on the chain A -> B -> C -> D with limit 2
    the crawl from A requests A, B and C, at depths 0, 1 and 2, and never
    requests D. *)
Theorem depth_limit_respected :
  (∀ Html find_all_a_href base_url max_depth get_page_content
     self_parse_profile state w,
     Forall (fun r => 0 ≤ snd r ≤ max_depth)
       (issued w (snd (_scrape_state Html find_all_a_href base_url max_depth
                         get_page_content self_parse_profile state w)))) ∧
  requests (snd (crawl chain url_A 2)) = [(url_A, 0); (url_B, 1); (url_C, 2)] ∧
  url_D ∉ (requests (snd (crawl chain url_A 2))).*1.
Proof.
  split; [|split].
  - intros. eapply Forall_impl; [apply scrape_state_requests|].
    simpl. tauto.
  - vm_compute. reflexivity.
  - assert (H : (requests (snd (crawl chain url_A 2))).*1 = [url_A; url_B; url_C])
      by (vm_compute; reflexivity).
    rewrite H. intros Hin.
    repeat (apply elem_of_cons in Hin as [Hin|Hin]; [discriminate Hin|]).
    by apply elem_of_nil in Hin.
Qed.

(** C3.  Within one invocation of [_scrape_state] no URL is requested
    twice.  An activation of [crawl_page] only adds to the visited set;
    every URL it requests was not visited before and is visited after; and
    once past the test of line 61 its own URL is in the visited set, also
    when the request raises, in which case nothing else has changed. *)
Theorem each_url_fetched_once Html find_all_a_href base_url max_depth
    get_page_content self_parse_profile :
  (∀ state w,
     NoDup (issued w (snd (_scrape_state Html find_all_a_href base_url max_depth
                             get_page_content self_parse_profile state w))).*1) ∧
  (∀ url depth st,
     let st' := crawl_page Html find_all_a_href base_url max_depth
                  get_page_content self_parse_profile url depth st in
     visited_urls st ⊆ visited_urls st' ∧
     (∀ u, u ∈ (issued (world st) (world st')).*1 →
           (u ∉ visited_urls st) ∧ (u ∈ visited_urls st')) ∧
     (refuses max_depth url depth st = false →
        url ∈ visited_urls st' ∧
        (get_page_content (world st) url = None →
           st' = set_world (record_request url depth (world st))
                   (mark_visited url st)))).
Proof.
  split.
  - intros state w. apply scrape_state_requests.
  - intros url depth st st'.
    destruct (crawl_page_extends Html find_all_a_href base_url max_depth
                get_page_content self_parse_profile url depth st)
      as [Hsub (seg & Hreq & _ & Hall)].
    fold st' in Hsub, Hreq, Hall.
    split; [exact Hsub|]. split.
    + rewrite (issued_app _ _ _ Hreq). intros u Hu.
      apply list_elem_of_fmap in Hu as (r & -> & Hr).
      rewrite Forall_forall in Hall. destruct (Hall r Hr) as (? & ? & _).
      done.
    + intros Href. split.
      * by apply crawl_page_marks.
      * intros Hnone. unfold st'. rewrite crawl_page_unfold, Href. simpl.
        simpl in Hnone. by rewrite Hnone.
Qed.

Lemma each_url_fetched_once_witness :
  url_A ∈ visited_urls
    (crawl_page Page page_links url_A 2 (serve chain) fake_parse
       url_A 0 (fresh_state fresh)).
Proof.
  destruct (each_url_fetched_once Page page_links url_A 2 (serve chain) fake_parse)
    as [_ H].
  destruct (H url_A 0 (fresh_state fresh)) as (_ & _ & Hmark).
  apply Hmark. vm_compute. reflexivity.
Defined.

(** C5, as the code has it.  Every URL requested during a crawl, the seed
    included, begins with the text of [base_url]; a link that does not
    begin with [http] is joined onto [base_url], whatever page it was found
    on; and a link whose resolved text does not begin with [base_url] is
    not followed. *)
Theorem fetched_urls_start_with_base_url Html find_all_a_href base_url max_depth
    get_page_content self_parse_profile :
  (∀ state w,
     Forall (fun r => startswith (fst r) base_url = true)
       (issued w (snd (_scrape_state Html find_all_a_href base_url max_depth
                         get_page_content self_parse_profile state w)))) ∧
  (∀ link,
     resolve base_url link =
     if startswith link "http" then link
     else rstrip_slash base_url +:+ "/" +:+ lstrip_slash link) ∧
  (∀ recurse st link,
     startswith (resolve base_url link) base_url = false →
     follow_link base_url recurse st link = st).
Proof.
  split; [|split].
  - intros state w. eapply Forall_impl; [apply scrape_state_requests|].
    simpl. tauto.
  - reflexivity.
  - intros recurse st link Hpre. unfold follow_link. by rewrite Hpre.
Qed.

Lemma fetched_urls_start_with_base_url_witness :
  follow_link url_shop (fun _ st => mark_visited "x" st)
    (fresh_state fresh) "http://other.test/" = fresh_state fresh.
Proof.
  apply (fetched_urls_start_with_base_url Page page_links url_shop 2
           (serve lookalike) fake_parse).
  vm_compute. reflexivity.
Defined.

(** C5 as stated fails: with the seed [http://shop.test], the linked URL
    [http://shop.test.evil.example/login] is requested although its origin
    is not the seed's. *)
Lemma cross_origin_fetched :
  ¬ Forall (fun r => Spec.origin (fst r) = Spec.origin url_shop)
      (requests (snd (crawl lookalike url_shop 2))).
Proof.
  assert (H : requests (snd (crawl lookalike url_shop 2))
              = [(url_shop, 0); (url_elsewhere, 1)]) by (vm_compute; reflexivity).
  rewrite H. intros Hall.
  apply Forall_cons in Hall as [_ Hall].
  apply Forall_cons in Hall as [Hbad _].
  vm_compute in Hbad. discriminate Hbad.
Qed.

(** C6, as the code has it.  The test of line 61 is made on the URL as it
    is written: [crawl_page] returns at once, leaving the visited set, the
    profiles and the world as they were, exactly when the depth exceeds
    [max_depth] or this very string is in the visited set; otherwise the
    string is put into the visited set.  Hence no string is requested
    twice in one crawl. *)
Theorem visit_decision_on_raw_url Html find_all_a_href base_url max_depth
    get_page_content self_parse_profile :
  (∀ url depth st,
     (refuses max_depth url depth st = true ↔
        max_depth < depth ∨ url ∈ visited_urls st) ∧
     (refuses max_depth url depth st = true →
        crawl_page Html find_all_a_href base_url max_depth
          get_page_content self_parse_profile url depth st = st) ∧
     (refuses max_depth url depth st = false →
        url ∈ visited_urls
                (crawl_page Html find_all_a_href base_url max_depth
                   get_page_content self_parse_profile url depth st))) ∧
  (∀ state w,
     NoDup (issued w (snd (_scrape_state Html find_all_a_href base_url max_depth
                             get_page_content self_parse_profile state w))).*1).
Proof.
  split.
  - intros url depth st. split; [apply refuses_true|]. split.
    + intros Href. by rewrite crawl_page_unfold, Href.
    + apply crawl_page_marks.
  - intros state w. apply scrape_state_requests.
Qed.

Lemma visit_decision_on_raw_url_witness :
  crawl_page Page page_links url_shop 2 (serve spellings) fake_parse
    url_page 3 (fresh_state fresh) = fresh_state fresh ∧
  url_page_fragment ∈ visited_urls
    (crawl_page Page page_links url_shop 2 (serve spellings) fake_parse
       url_page_fragment 1 (mark_visited url_page (fresh_state fresh))).
Proof.
  destruct (visit_decision_on_raw_url Page page_links url_shop 2
              (serve spellings) fake_parse) as [H _].
  split.
  - destruct (H url_page 3 (fresh_state fresh)) as (_ & Hskip & _).
    apply Hskip. vm_compute. reflexivity.
  - destruct (H url_page_fragment 1 (mark_visited url_page (fresh_state fresh)))
      as (_ & _ & Hmark).
    apply Hmark. vm_compute. reflexivity.
Defined.

(** C6 as stated fails: the three spellings [/page], [/page#top] and
    [/page/] of one page have the same normalized form and are all
    requested in one crawl. *)
Lemma spellings_fetched_separately :
  ¬ (∀ u1 u2,
       u1 ∈ (requests (snd (crawl spellings url_shop 2))).*1 →
       u2 ∈ (requests (snd (crawl spellings url_shop 2))).*1 →
       Spec.normalize u1 = Spec.normalize u2 → u1 = u2).
Proof.
  assert (H : (requests (snd (crawl spellings url_shop 2))).*1
              = [url_shop; url_page; url_page_fragment; url_page_slash])
    by (vm_compute; reflexivity).
  rewrite H. intros Hinj.
  assert (Heq : url_page = url_page_fragment).
  { apply Hinj.
    - apply list_elem_of_further, list_elem_of_here.
    - apply list_elem_of_further, list_elem_of_further, list_elem_of_here.
    - vm_compute. reflexivity. }
  discriminate Heq.
Qed.

(** C9.  When the fetcher and the parser answer the same whatever the state
    of the world, two consecutive runs of [scrape_profiles] return the same
    list of records and issue the same requests in the same order. *)
Theorem consecutive_runs_agree Html find_all_a_href base_url max_depth
    get_page_content self_parse_profile :
  (∀ w w' url, get_page_content w url = get_page_content w' url) →
  (∀ w w' content, self_parse_profile w content = self_parse_profile w' content) →
  ∀ states w0,
    let run := scrape_profiles Html find_all_a_href base_url max_depth
                 get_page_content self_parse_profile states in
    let first := run w0 in
    let second := run (snd first) in
    fst first = fst second ∧
    issued w0 (snd first) = issued (snd first) (snd second).
Proof.
  intros Hfetch Hparse states w0. cbv zeta. unfold scrape_profiles.
  set (l := default ["all"%string] states).
  destruct (scrape_states_fixed Html find_all_a_href base_url max_depth
              get_page_content self_parse_profile Hfetch Hparse l [] w0
              (snd (scrape_states Html find_all_a_href base_url max_depth
                      get_page_content self_parse_profile l [] w0)))
    as (seg & Hr1 & Hr2 & Hp).
  split; [exact Hp|].
  by rewrite (issued_app _ _ _ Hr1), (issued_app _ _ _ Hr2).
Qed.

Lemma consecutive_runs_agree_witness :
  let run := scrape_profiles Page page_links url_shop 2
               (serve listing) fake_parse (Some ["all"%string]) in
  fst (run fresh) = fst (run (snd (run fresh))) ∧
  issued fresh (snd (run fresh))
  = issued (snd (run fresh)) (snd (run (snd (run fresh)))).
Proof.
  apply (consecutive_runs_agree Page page_links url_shop 2
           (serve listing) fake_parse).
  - intros w w' url. reflexivity.
  - intros w w' content. reflexivity.
Defined.

(** The parser of the repository reads the clock: the records of two runs
    made at different times differ in [scraped_at]. *)
Remark parse_profile_reads_clock Html
    (n p l : Html -> option string) (a : Html -> option Z)
    (d m : Html -> option string) (i : Html -> list string)
    base_url content w w' :
  clock w ≠ clock w' →
  parse_profile Html n p l a d m i base_url w content
  ≠ parse_profile Html n p l a d m i base_url w' content.
Proof.
  intros Hclock Heq. apply Hclock.
  unfold parse_profile in Heq. by injection Heq.
Qed.

End CrawlerClaims.

(** * Properties of the analyzer *)

Section Arithmetic.

Import Img.
Local Open Scope Q_scope.

Lemma fold_left_Qplus l : ∀ a, fold_left Qplus l a == a + fold_right Qplus 0 l.
Proof.
  induction l as [|x l IH]; intros a; simpl.
  - ring.
  - rewrite IH. ring.
Qed.

Lemma Qsum_fold_right l : Qsum l == fold_right Qplus 0 l.
Proof. unfold Qsum. rewrite fold_left_Qplus. ring. Qed.

Lemma fold_right_nonneg l :
  Forall (fun q => 0 <= q) l → 0 <= fold_right Qplus 0 l.
Proof.
  induction 1 as [|x l Hx _ IH]; simpl; [apply Qle_refl|].
  apply (Qplus_le_compat 0 x 0 _ Hx IH).
Qed.

Lemma fold_right_uniform x l :
  Forall (fun q => q == x) l →
  fold_right Qplus 0 l == x * inject_Z (Z.of_nat (length l)).
Proof.
  induction 1 as [|y l Hy _ IH].
  - simpl. ring.
  - cbn [fold_right length]. rewrite IH, Hy, Nat2Z.inj_succ.
    unfold Z.succ. rewrite inject_Z_plus. ring.
Qed.

Lemma length_positive {A} (l : list A) :
  l ≠ [] → 0 < inject_Z (Z.of_nat (length l)).
Proof.
  intros Hl. destruct l as [|a l]; [done|].
  change 0 with (inject_Z 0). rewrite <- Zlt_Qlt. simpl. lia.
Qed.

Lemma mean_nonneg l : Forall (fun q => 0 <= q) l → 0 <= mean l.
Proof.
  intros Hl. unfold mean. rewrite Qsum_fold_right.
  destruct l as [|a l].
  - vm_compute. discriminate.
  - apply Qle_shift_div_l; [by apply length_positive|].
    rewrite Qmult_0_l. by apply fold_right_nonneg.
Qed.

Lemma mean_uniform x l : l ≠ [] → Forall (fun q => q == x) l → mean l == x.
Proof.
  intros Hne Hl. unfold mean. rewrite Qsum_fold_right, (fold_right_uniform x l Hl).
  field. intros Hz. apply (Qlt_irrefl 0).
  rewrite <- Hz at 2. by apply length_positive.
Qed.

Lemma var_nonneg l : 0 <= var l.
Proof.
  unfold var. apply mean_nonneg. apply Forall_map, Forall_forall.
  intros x _. simpl.
  destruct (Qlt_le_dec (x - mean l) 0) as [Hneg|Hpos].
  - assert (E : (x - mean l) * (x - mean l)
                == (- (x - mean l)) * (- (x - mean l))) by ring.
    rewrite E. apply Qmult_le_0_compat; lra.
  - by apply Qmult_le_0_compat.
Qed.

Lemma var_uniform x l : l ≠ [] → Forall (fun q => q == x) l → var l == 0.
Proof.
  intros Hne Hl. unfold var. apply mean_uniform.
  - by destruct l.
  - apply Forall_map. eapply Forall_impl; [exact Hl|]. simpl.
    intros y Hy. rewrite Hy, (mean_uniform x l Hne Hl). ring.
Qed.

Lemma Forall_cells {A} (P : A → Prop) (g : grid A) :
  (∀ i j, P (cell g i j)) → Forall P (cells g).
Proof.
  intros HP. unfold cells. apply Forall_flat_map, Forall_forall.
  intros i _. apply Forall_map, Forall_forall. intros j _. apply HP.
Qed.

Lemma cells_nonempty {A} (g : grid A) : is_empty g = false → cells g ≠ [].
Proof.
  unfold is_empty, cells. rewrite orb_false_iff, !Nat.eqb_neq.
  intros [Hr Hc].
  destruct (rows g) as [|r]; [done|]. destruct (cols g) as [|c]; [done|].
  simpl. discriminate.
Qed.

Lemma gray_of_division b g r :
  gray_of (b, g, r)
  = ((Z.of_N b * 3735 + Z.of_N g * 19235 + Z.of_N r * 9798 + 16384) / 32768)%Z.
Proof.
  unfold gray_of, gray_shift, BY15, GY15, RY15.
  rewrite Z.shiftr_div_pow2 by lia. reflexivity.
Qed.

Lemma gray_of_gray v : gray_of (v, v, v) = Z.of_N v.
Proof.
  rewrite gray_of_division.
  replace (Z.of_N v * 3735 + Z.of_N v * 19235 + Z.of_N v * 9798 + 16384)%Z
    with (Z.of_N v * 32768 + 16384)%Z by ring.
  rewrite Z.div_add_l by discriminate.
  change (16384 / 32768)%Z with 0%Z. ring.
Qed.

Lemma gray_of_nonneg px : (0 <= gray_of px)%Z.
Proof.
  destruct px as [[b g] r]. rewrite gray_of_division.
  apply Z.div_pos; lia.
Qed.

(** The gray value is a level of 0..255, within 0.505 of the luminance
    0.299 R + 0.587 G + 0.114 B. *)
Lemma gray_of_luminance b g r :
  (b <= 255)%N → (g <= 255)%N → (r <= 255)%N →
  (0 <= gray_of (b, g, r) <= 255)%Z ∧
  (Z.abs (1000 * gray_of (b, g, r)
          - (299 * Z.of_N r + 587 * Z.of_N g + 114 * Z.of_N b)) <= 505)%Z.
Proof.
  intros Hb Hg Hr. rewrite gray_of_division.
  Z.div_mod_to_equations. lia.
Qed.

(** *** The mean and the variance *)

Lemma mean_average l : mean l == Spec.average l.
Proof. unfold mean, Spec.average. by rewrite Qsum_fold_right. Qed.

Lemma length_cons_Q {A} (x : A) l :
  inject_Z (Z.of_nat (length (x :: l))) == inject_Z (Z.of_nat (length l)) + 1.
Proof.
  cbn [length]. rewrite Nat2Z.inj_succ. unfold Z.succ.
  by rewrite inject_Z_plus.
Qed.

Lemma sum_of_squared_deviations m l :
  fold_right Qplus 0 (map (fun x => (x - m) * (x - m)) l)
  == fold_right Qplus 0 (map (fun x => x * x) l)
     - 2 * m * fold_right Qplus 0 l
     + inject_Z (Z.of_nat (length l)) * m * m.
Proof.
  induction l as [|x l IH].
  - simpl. ring.
  - rewrite length_cons_Q. cbn [map fold_right]. rewrite IH. ring.
Qed.

(** The mean of the squared deviations from the mean is the mean of the
    squares less the square of the mean. *)
Lemma var_variance l : var l == Spec.variance l.
Proof.
  destruct l as [|x0 l0]; [vm_compute; reflexivity|].
  set (l := x0 :: l0).
  assert (Hn : 0 < inject_Z (Z.of_nat (length l))) by by apply length_positive.
  unfold var. rewrite mean_average. unfold Spec.average at 1.
  rewrite length_map, sum_of_squared_deviations.
  unfold Spec.variance. rewrite mean_average.
  unfold Spec.average. rewrite length_map.
  field. intros Hz. rewrite Hz in Hn. by apply Qlt_irrefl in Hn.
Qed.

(** *** The cells of an array, listed by position *)

Lemma map_list_prod {A B C} (f : A * B → C) (l : list A) (l' : list B) :
  map f (list_prod l l') = flat_map (fun x => map (fun y => f (x, y)) l') l.
Proof.
  induction l as [|x l IH]; simpl; [done|].
  by rewrite map_app, map_map, IH.
Qed.

Lemma cells_by_position {A} (g : grid A) :
  cells g
  = map (fun p => cell g (fst p) (snd p)) (list_prod (seq 0 (rows g)) (seq 0 (cols g))).
Proof. by rewrite map_list_prod. Qed.

(** *** The border of the Laplacian *)

Lemma border_inside (i n : nat) : (i < n)%nat → border (Z.of_nat i) n = i.
Proof.
  intros Hi. unfold border.
  destruct (Nat.eqb_spec n 1); [lia|].
  destruct (Z.ltb_spec (Z.of_nat i) 0); [lia|].
  destruct (Z.leb_spec (Z.of_nat n) (Z.of_nat i)); lia.
Qed.

Lemma border_before (i n : nat) :
  (i < n)%nat → border (Z.of_nat i - 1) n = Spec.before n i.
Proof.
  intros Hi. unfold border, Spec.before.
  destruct (Nat.eqb_spec n 1) as [->|Hn].
  - destruct i; [done|lia].
  - destruct (Z.ltb_spec (Z.of_nat i - 1) 0).
    + destruct i; [|lia]. destruct (Nat.ltb_spec 1 n); [done|lia].
    + destruct (Z.leb_spec (Z.of_nat n) (Z.of_nat i - 1)); [lia|].
      destruct i; [lia|]. lia.
Qed.

Lemma border_after (i n : nat) :
  (i < n)%nat → border (Z.of_nat i + 1) n = Spec.after n i.
Proof.
  intros Hi. unfold border, Spec.after.
  destruct (Nat.ltb_spec (S i) n).
  - destruct (Nat.eqb_spec n 1); [lia|].
    destruct (Z.ltb_spec (Z.of_nat i + 1) 0); [lia|].
    destruct (Z.leb_spec (Z.of_nat n) (Z.of_nat i + 1)); lia.
  - destruct (Nat.eqb_spec n 1); [lia|].
    destruct (Z.ltb_spec (Z.of_nat i + 1) 0); [lia|].
    destruct (Z.leb_spec (Z.of_nat n) (Z.of_nat i + 1)); lia.
Qed.

(** Inside the array, [cv2.Laplacian] computes the discrete Laplacian. *)
Lemma Laplacian_cell gray (i j : nat) :
  (i < rows gray)%nat → (j < cols gray)%nat →
  cell (Laplacian gray) i j = inject_Z (Spec.discrete_laplacian gray i j).
Proof.
  intros Hi Hj. unfold Laplacian, Spec.discrete_laplacian, Spec.second_difference.
  cbn [cell].
  rewrite !border_inside, !border_before, !border_after by done.
  f_equal. ring.
Qed.

Lemma Laplacian_cells gray :
  cells (Laplacian gray)
  = map (fun p => inject_Z (Spec.discrete_laplacian gray (fst p) (snd p)))
      (Spec.positions gray).
Proof.
  rewrite cells_by_position. unfold Spec.positions.
  change (rows (Laplacian gray)) with (rows gray).
  change (cols (Laplacian gray)) with (cols gray).
  apply map_ext_in. intros [i j] [Hi%in_seq Hj%in_seq]%in_prod_iff.
  apply Laplacian_cell; simpl; lia.
Qed.

Lemma gray_cells (gray : grid Z) :
  map inject_Z (cells gray)
  = map (fun p => inject_Z (cell gray (fst p) (snd p))) (Spec.positions gray).
Proof. by rewrite cells_by_position, map_map. Qed.

End Arithmetic.

Section QualityFacts.

Import Img Analyzer.
Local Open Scope Q_scope.

Lemma sharpness_score_bounds gray : 0 <= sharpness_score gray <= 1.
Proof.
  unfold sharpness_score. split; [|apply Q.le_min_l].
  apply Q.min_glb; [discriminate|].
  pose proof (var_nonneg (cells (Laplacian gray))) as Hv.
  apply Qle_shift_div_l; [reflexivity|]. by rewrite Qmult_0_l.
Qed.

Lemma brightness_score_bounds gray :
  (∀ i j, (0 <= cell gray i j)%Z) → 0 <= brightness_score gray <= 1.
Proof.
  intros Hpos. unfold brightness_score. split; [|apply Q.le_min_l].
  apply Q.min_glb; [discriminate|].
  apply Qle_shift_div_l; [reflexivity|]. rewrite Qmult_0_l.
  apply mean_nonneg. apply Forall_map, Forall_cells.
  intros i j. simpl. change 0 with (inject_Z 0). rewrite <- Zle_Qle. apply Hpos.
Qed.

(** The quality of an image is a number of [[0,1]]. *)
Lemma assess_image_quality_bounds image : 0 <= assess_image_quality image <= 1.
Proof.
  unfold assess_image_quality, cvtColor_BGR2GRAY.
  destruct (is_empty image); [split; discriminate|].
  match goal with |- context [sharpness_score ?g] => set (gray := g) end.
  pose proof (sharpness_score_bounds gray) as [? ?].
  pose proof (brightness_score_bounds gray
                (fun i j => gray_of_nonneg (cell image i j))) as [? ?].
  split.
  - apply Qle_shift_div_l; [reflexivity|]. lra.
  - apply Qle_shift_div_r; [reflexivity|]. lra.
Qed.

Lemma uniform_gray r c v :
  (0 < r)%nat → (0 < c)%nat →
  cvtColor_BGR2GRAY (uniform r c v)
  = Ok {| rows := r; cols := c; cell := fun _ _ => gray_of (v, v, v) |}.
Proof.
  intros Hr Hc. unfold cvtColor_BGR2GRAY, is_empty. simpl.
  destruct r; [lia|]. destruct c; [lia|]. reflexivity.
Qed.

Lemma sharpness_score_spec gray : sharpness_score gray == Spec.sharpness gray.
Proof.
  unfold sharpness_score, Spec.sharpness.
  by rewrite var_variance, Laplacian_cells.
Qed.

Lemma brightness_score_spec gray : brightness_score gray == Spec.brightness gray.
Proof.
  unfold brightness_score, Spec.brightness.
  by rewrite mean_average, gray_cells.
Qed.

(** The Laplacian of a 2 by 2 array of two values. *)
Lemma checkerboard_Laplacian (gray : grid Z) (x y : Z) :
  rows gray = 2%nat → cols gray = 2%nat →
  cell gray 0 0 = x → cell gray 0 1 = y → cell gray 1 0 = y → cell gray 1 1 = x →
  cells (Laplacian gray)
  = map inject_Z [4 * (y - x); 4 * (x - y); 4 * (x - y); 4 * (y - x)]%Z ∧
  map inject_Z (cells gray) = map inject_Z [x; y; y; x].
Proof.
  intros Hr Hc H00 H01 H10 H11. split.
  - rewrite Laplacian_cells. unfold Spec.positions. rewrite Hr, Hc.
    cbn [seq list_prod map app fst snd].
    unfold Spec.discrete_laplacian, Spec.second_difference. rewrite Hr, Hc.
    cbn [Spec.before Spec.after Nat.ltb Nat.leb pred].
    rewrite H00, H01, H10, H11.
    replace (y - x - (x - y) + (y - x - (x - y)))%Z with (4 * (y - x))%Z by ring.
    replace (x - y - (y - x) + (x - y - (y - x)))%Z with (4 * (x - y))%Z by ring.
    done.
  - unfold cells. rewrite Hr, Hc. cbn [seq flat_map map app].
    by rewrite H00, H01, H10, H11.
Qed.

Lemma checkerboard_var (x y : Z) :
  var (map inject_Z [4 * (y - x); 4 * (x - y); 4 * (x - y); 4 * (y - x)]%Z)
  == inject_Z (16 * (x - y) * (x - y)).
Proof.
  rewrite var_variance. unfold Spec.variance, Spec.average.
  cbn [map fold_right length].
  unfold Z.sub. rewrite !inject_Z_mult, !inject_Z_plus, !inject_Z_opp.
  change (inject_Z (Z.of_nat 4)) with 4. change (inject_Z 4) with 4.
  change (inject_Z 16) with 16. field.
Qed.

Lemma checkerboard_mean (x y : Z) :
  mean (map inject_Z [x; y; y; x]) == (inject_Z x + inject_Z y) / 2.
Proof.
  rewrite mean_average. unfold Spec.average. cbn [map fold_right length].
  change (inject_Z (Z.of_nat 4)) with 4. field.
Qed.

(** C7.  On an image that is not empty the grayscale conversion succeeds,
    and [assess_image_quality] is the average of the sharpness proxy of the
    design document, the variance of the discrete Laplacian of the gray
    values divided by 500 and clipped to 1, and of its brightness proxy,
    the mean gray value divided by 255 and clipped to 1.  The gray value of
    a pixel is a level of 0..255 within 0.505 of 0.299 R + 0.587 G +
    0.114 B.  When the conversion raises, as it does on an empty image,
    the result is 0.  For an image of [r] by [c] pixels all of gray value
    [v], the sharpness score is 0, the brightness score is [v/255], and the
    result is [(v/255)/2]; for the 2 by 2 checkerboard of the gray values
    [a] and [b], the variance of the Laplacian is [16 (a - b)^2] and the
    mean is [(a + b)/2], so the result is the average of
    [min(1, 16 (a - b)^2 / 500)] and [(a + b)/2/255]. *)
Theorem image_quality_formula :
  (∀ image, is_empty image = false →
     ∃ gray, cvtColor_BGR2GRAY image = Ok gray ∧
       rows gray = rows image ∧ cols gray = cols image ∧
       (∀ i j, cell gray i j = gray_of (cell image i j)) ∧
       sharpness_score gray == Spec.sharpness gray ∧
       brightness_score gray == Spec.brightness gray ∧
       assess_image_quality image
       == (Spec.sharpness gray + Spec.brightness gray) / 2) ∧
  (∀ b g r, (b <= 255)%N → (g <= 255)%N → (r <= 255)%N →
     (0 <= gray_of (b, g, r) <= 255)%Z ∧
     (Z.abs (1000 * gray_of (b, g, r)
             - (299 * Z.of_N r + 587 * Z.of_N g + 114 * Z.of_N b)) <= 505)%Z) ∧
  (∀ image, is_empty image = true → cvtColor_BGR2GRAY image = Raise CvError) ∧
  (∀ image e, cvtColor_BGR2GRAY image = Raise e → assess_image_quality image == 0) ∧
  (∀ r c v, (0 < r)%nat → (0 < c)%nat → (v <= 255)%N →
     ∃ gray, cvtColor_BGR2GRAY (uniform r c v) = Ok gray ∧
       sharpness_score gray == 0 ∧
       brightness_score gray == inject_Z (Z.of_N v) / 255 ∧
       assess_image_quality (uniform r c v) == (inject_Z (Z.of_N v) / 255) / 2) ∧
  (∀ a b, (a <= 255)%N → (b <= 255)%N →
     ∃ gray, cvtColor_BGR2GRAY (Fixtures.checkerboard a b) = Ok gray ∧
       sharpness_score gray
       == Qmin 1 (inject_Z (16 * (Z.of_N a - Z.of_N b) * (Z.of_N a - Z.of_N b)) / 500) ∧
       brightness_score gray
       == (inject_Z (Z.of_N a) + inject_Z (Z.of_N b)) / 2 / 255 ∧
       assess_image_quality (Fixtures.checkerboard a b)
       == (Qmin 1 (inject_Z (16 * (Z.of_N a - Z.of_N b) * (Z.of_N a - Z.of_N b))
                   / 500)
           + (inject_Z (Z.of_N a) + inject_Z (Z.of_N b)) / 2 / 255) / 2).
Proof.
  split; [|split; [|split; [|split; [|split]]]].
  - intros image Hne. unfold assess_image_quality, cvtColor_BGR2GRAY.
    rewrite Hne. eexists. split; [reflexivity|].
    repeat split; try reflexivity.
    + apply sharpness_score_spec.
    + apply brightness_score_spec.
    + by rewrite sharpness_score_spec, brightness_score_spec.
  - apply gray_of_luminance.
  - intros image He. unfold cvtColor_BGR2GRAY. by rewrite He.
  - intros image e Hraise. unfold assess_image_quality. rewrite Hraise.
    reflexivity.
  - intros r c v Hr Hc Hv.
    set (gray := {| rows := r; cols := c; cell := fun _ _ => gray_of (v, v, v) |}).
    assert (Hne : is_empty gray = false).
    { unfold is_empty. simpl. destruct r; [lia|]. destruct c; [lia|]. done. }
    assert (Hsharp : sharpness_score gray == 0).
    { unfold sharpness_score. rewrite (var_uniform 0).
      - vm_compute. reflexivity.
      - by apply (cells_nonempty (Laplacian gray)).
      - apply Forall_cells. intros i j. simpl.
        match goal with |- inject_Z ?z == 0 => replace z with 0%Z by ring end.
        reflexivity. }
    assert (Hbright : brightness_score gray == inject_Z (Z.of_N v) / 255).
    { unfold brightness_score. rewrite (mean_uniform (inject_Z (Z.of_N v))).
      - apply Q.min_r. apply Qle_shift_div_r; [reflexivity|].
        rewrite Qmult_1_l. change 255 with (inject_Z 255).
        rewrite <- Zle_Qle. lia.
      - intros Hnil. apply map_eq_nil in Hnil. by apply cells_nonempty in Hnil.
      - apply Forall_map, Forall_cells. intros i j. unfold gray. cbn [cell].
        by rewrite gray_of_gray. }
    exists gray. split; [by apply uniform_gray|]. split; [exact Hsharp|].
    split; [exact Hbright|].
    unfold assess_image_quality. rewrite uniform_gray by done.
    fold gray. rewrite Hsharp, Hbright. field.
  - intros a b Ha Hb.
    unfold assess_image_quality, cvtColor_BGR2GRAY. cbn [is_empty Fixtures.checkerboard
      rows cols Nat.eqb orb].
    eexists. split; [reflexivity|].
    match goal with |- context [sharpness_score ?g] => set (gray := g) end.
    destruct (checkerboard_Laplacian gray (Z.of_N a) (Z.of_N b)) as [HL HG];
      try reflexivity; try (unfold gray; cbn [cell Nat.eqb]; apply gray_of_gray).
    assert (Hsharp : sharpness_score gray
      == Qmin 1 (inject_Z (16 * (Z.of_N a - Z.of_N b) * (Z.of_N a - Z.of_N b)) / 500)).
    { unfold sharpness_score. by rewrite HL, checkerboard_var. }
    assert (Hbright : brightness_score gray
      == (inject_Z (Z.of_N a) + inject_Z (Z.of_N b)) / 2 / 255).
    { unfold brightness_score. rewrite HG, checkerboard_mean.
      apply Q.min_r. apply Qle_shift_div_r; [reflexivity|].
      apply Qle_shift_div_r; [reflexivity|].
      change (1 * 255 * 2) with (inject_Z 510).
      rewrite <- inject_Z_plus, <- Zle_Qle. lia. }
    split; [exact Hsharp|]. split; [exact Hbright|].
    by rewrite Hsharp, Hbright.
Qed.

Lemma image_quality_formula_witness :
  assess_image_quality (uniform 2 3 100) == (inject_Z (Z.of_N 100) / 255) / 2.
Proof.
  destruct image_quality_formula as (_ & _ & _ & _ & H & _).
  destruct (H 2%nat 3%nat 100%N) as (gray & _ & _ & _ & Hq); [lia..|].
  exact Hq.
Defined.

End QualityFacts.

Section ScoreFacts.

Import Analyzer.
Local Open Scope Q_scope.

Lemma truthy_str_filled s : truthy_str s = Spec.filled_str s.
Proof. by destruct s as [| |[|c s]]. Qed.

Lemma truthy_list_filled s : truthy_list s = Spec.filled_list s.
Proof. by destruct s as [| |[|x l]]. Qed.

Lemma indicator_bounds b : 0 <= Spec.indicator b <= 1.
Proof. destruct b; split; discriminate. Qed.

Lemma completeness_agrees e :
  inject_Z (Z.of_nat (length (filter (fun b => b = true) (required_fields e))))
  / inject_Z (Z.of_nat (length (required_fields e)))
  == Spec.profile_completeness (base e).
Proof.
  unfold required_fields, Spec.profile_completeness.
  rewrite !truthy_str_filled, truthy_list_filled.
  destruct (Spec.filled_str (name (base e))),
           (Spec.filled_str (phone (base e))),
           (Spec.filled_str (location (base e))),
           (Spec.filled_list (images (base e))); vm_compute; reflexivity.
Qed.

Lemma completeness_bounds p : 0 <= Spec.profile_completeness p <= 1.
Proof.
  unfold Spec.profile_completeness.
  pose proof (indicator_bounds (Spec.filled_str (name p))).
  pose proof (indicator_bounds (Spec.filled_str (phone p))).
  pose proof (indicator_bounds (Spec.filled_str (location p))).
  pose proof (indicator_bounds (Spec.filled_list (images p))).
  split.
  - apply Qle_shift_div_l; [reflexivity|]. lra.
  - apply Qle_shift_div_r; [reflexivity|]. lra.
Qed.

Lemma average_agrees qs :
  match qs with
  | [] => 0
  | _ :: _ => Img.Qsum qs / inject_Z (Z.of_nat (length qs))
  end == Spec.average_image_quality qs.
Proof.
  destruct qs as [|q qs]; [reflexivity|].
  unfold Spec.average_image_quality. by rewrite Qsum_fold_right.
Qed.


(** The score is the clamped weighted sum of the design document. *)
Lemma score_is_weighted_sum e :
  calculate_authenticity_score e == Qmin 1 (Spec.weighted_sum e).
Proof.
  unfold calculate_authenticity_score, Spec.weighted_sum.
  apply Q.min_compat; [reflexivity|].
  rewrite completeness_agrees, <- average_agrees.
  unfold weight_face_detected, weight_phone_valid, weight_location_valid,
    weight_image_quality, weight_profile_completeness, Spec.indicator.
  destruct (get_face_detected e), (get_phone_valid e), (get_location_valid e),
    (get_image_quality e); ring.
Qed.



End ScoreFacts.

Section AnalyzerFacts.

Import Img Analyzer.
Local Open Scope Q_scope.

Variable use_apis : bool.
Variable session_get : string -> result Response.
Variable imdecode : list Byte.byte -> result (option Image).
Variable face_locations : Image -> result (list Box).
Variable face_recognition_encodings : Image -> list Box -> result (list Encoding).

Local Abbreviation download_image := (download_image session_get imdecode).
Local Abbreviation examined := (examined session_get imdecode).
Local Abbreviation detect_face :=
  (detect_face face_locations face_recognition_encodings).
Local Abbreviation analyze_image :=
  (analyze_image use_apis session_get imdecode
     face_locations face_recognition_encodings).
Local Abbreviation analyze_images :=
  (analyze_images use_apis session_get imdecode
     face_locations face_recognition_encodings).
Local Abbreviation analyze_profile :=
  (analyze_profile use_apis session_get imdecode
     face_locations face_recognition_encodings).
Local Abbreviation faces_found :=
  (faces_found session_get imdecode face_locations face_recognition_encodings).
Local Abbreviation qualities_measured :=
  (qualities_measured session_get imdecode).

Lemma nonempty_app {A} (l k : list A) : nonempty (l ++ k) = nonempty l || nonempty k.
Proof. by destruct l, k. Qed.

(** One iteration of the loop of [analyze_images]. *)
Lemma analyze_image_effect a url :
  face_encodings (analyze_image a url) = face_encodings a ++ faces_found [url] ∧
  face_detected (analyze_image a url)
  = face_detected a || nonempty (faces_found [url]) ∧
  image_quality (analyze_image a url)
  = image_quality a ++ qualities_measured [url].
Proof.
  unfold Analyzer.analyze_image, Analyzer.faces_found,
    Analyzer.qualities_measured. simpl.
  destruct (examined url) as [image_data|]; simpl.
  - destruct (detect_face image_data) as [enc|]; simpl;
      destruct use_apis; simpl;
      rewrite ?app_nil_r, ?orb_true_r, ?orb_false_r; done.
  - by rewrite !app_nil_r, orb_false_r.
Qed.

(** The loop of [analyze_images], from any analysis. *)
Lemma analyze_images_effect urls : ∀ a,
  face_encodings (fold_left analyze_image urls a)
  = face_encodings a ++ faces_found urls ∧
  face_detected (fold_left analyze_image urls a)
  = face_detected a || nonempty (faces_found urls) ∧
  image_quality (fold_left analyze_image urls a)
  = image_quality a ++ qualities_measured urls.
Proof.
  induction urls as [|url urls IH]; intros a.
  - simpl. by rewrite !app_nil_r, orb_false_r.
  - cbn [fold_left].
    destruct (IH (analyze_image a url)) as (He & Hd & Hq).
    destruct (analyze_image_effect a url) as (He1 & Hd1 & Hq1).
    rewrite He, Hd, Hq, He1, Hd1, Hq1.
    change (url :: urls) with ([url] ++ urls).
    unfold Analyzer.faces_found, Analyzer.qualities_measured.
    by rewrite !omap_app, nonempty_app, !app_assoc, orb_assoc.
Qed.

Lemma qualities_measured_bounds urls :
  Forall (fun q => 0 <= q <= 1) (qualities_measured urls).
Proof.
  unfold Analyzer.qualities_measured. induction urls as [|url urls IH]; simpl.
  - constructor.
  - destruct (examined url) as [image|]; simpl; [|exact IH].
    constructor; [apply assess_image_quality_bounds | exact IH].
Qed.

(** numpy gives no truth value to an array of more than one element, and
    an image has three channels: the body of [if image_data:] never runs. *)
Remark ndarray_bool_raises image : ndarray_bool image = Raise ValueError.
Proof.
  unfold ndarray_bool, size.
  destruct (rows image * cols image * 3)%nat as [|[|n]] eqn:Hsize;
    [reflexivity| |reflexivity].
  lia.
Qed.

Remark ndarray_bool_of_image image : ndarray_bool image ≠ Ok true.
Proof. by rewrite ndarray_bool_raises. Qed.

Remark examined_nothing url : examined url = None.
Proof.
  unfold Analyzer.examined.
  destruct (download_image url) as [image|]; [|done].
  pose proof (ndarray_bool_of_image image).
  by destruct (ndarray_bool image) as [[|]|].
Qed.

Lemma In_omap {A B} (f : A → option B) (l : list A) x y :
  In x l → f x = Some y → In y (omap f l).
Proof.
  intros Hin Hfx. induction l as [|a l IH]; [done|].
  cbn [omap list_omap]. fold (omap f l). destruct Hin as [->|Hin].
  - rewrite Hfx. by left.
  - destruct (f a); [right|]; by apply IH.
Qed.

Remark faces_found_nothing urls : faces_found urls = [].
Proof.
  unfold Analyzer.faces_found. induction urls as [|url urls IH]; [done|].
  cbn [omap list_omap]. fold (omap (fun url => examined url ≫= detect_face) urls).
  by rewrite examined_nothing.
Qed.

End AnalyzerFacts.

(** ** The claims about the analyzer *)

Section AnalyzerClaims.

Import Img Analyzer Fixtures.
Local Open Scope Q_scope.



(** C10: what the code does with a face in an image it has downloaded.
    [download_image] returns the decoded image, a numpy array of several
    elements; the test [if image_data:] asks for its truth value, numpy
    raises [ValueError], and the handler of line 78 logs it, so the body of
    the test does not run.  The analysis [analyze_images] returns has then
    no encoding and no flag, although the image was downloaded and
    [detect_face] finds a face in it: the encodings recorded are not those
    of the faces found in the downloaded images.  The flag and the list
    still agree: [face_detected] is set exactly when [face_encodings] is
    not empty. *)
Theorem downloaded_face_is_not_recorded use_apis session_get imdecode
    face_locations face_recognition_encodings
    (image_urls : list string) (url : string) (image : Image)
    (encoding : Encoding) :
  In url image_urls →
  download_image session_get imdecode url = Some image →
  detect_face face_locations face_recognition_encodings image = Some encoding →
  let analysis := analyze_images use_apis session_get imdecode
                    face_locations face_recognition_encodings image_urls in
  let expected := Spec.faces_in_downloads session_get imdecode face_locations
                    face_recognition_encodings image_urls in
  ndarray_bool image = Raise ValueError ∧
  face_detected analysis = false ∧
  face_encodings analysis = [] ∧
  In encoding expected ∧
  face_encodings analysis ≠ expected ∧
  (face_detected analysis = true ↔ face_encodings analysis ≠ []).
Proof.
  intros Hin Hdown Hface analysis expected.
  destruct (analyze_images_effect use_apis session_get imdecode face_locations
              face_recognition_encodings image_urls no_images) as (He & Hd & _).
  assert (Hexp : In encoding expected).
  { apply (In_omap _ _ url); [done|]. by rewrite Hdown. }
  unfold analysis, analyze_images. rewrite He, Hd, faces_found_nothing. simpl.
  split; [apply ndarray_bool_raises|].
  repeat split; try done.
  intros Heq. by rewrite <- Heq in Hexp.
Qed.

Lemma downloaded_face_is_not_recorded_witness :
  download_image online gray_decoder "http://shop.test/a.jpg"
  = Some (uniform 2 2 100) ∧
  detect_face one_face one_encoding (uniform 2 2 100) = Some [0.5] ∧
  face_encodings
    (analyze_images false online gray_decoder one_face one_encoding
       ["http://shop.test/a.jpg"%string]) = [] ∧
  Spec.faces_in_downloads online gray_decoder one_face one_encoding
    ["http://shop.test/a.jpg"%string] = [[0.5]].
Proof.
  split; [reflexivity|]. split; [reflexivity|]. split; [|reflexivity].
  apply (downloaded_face_is_not_recorded false online gray_decoder one_face
           one_encoding ["http://shop.test/a.jpg"%string] "http://shop.test/a.jpg"
           (uniform 2 2 100) [0.5]).
  - left. reflexivity.
  - reflexivity.
  - reflexivity.
Defined.

(** C8: what the code does on a record whose only image cannot be
    downloaded.  The image analysis has no face, no encoding and no quality
    entry, and it is the analysis any enriched profile of the record
    carries.  [analyze_profile] returns such a profile when the record has no
    key [phone] or a string under it; when the key holds [None], as in the
    records [parse_profile] builds for pages without a phone number, the
    phone branch raises [TypeError] and so does [analyze_profile]. *)
Theorem failed_download_is_skipped use_apis session_get imdecode
    face_locations face_recognition_encodings (p : Profile) (url : string) :
  images p = Val [url] →
  download_image session_get imdecode url = None →
  let analysis := analyze_images use_apis session_get imdecode
                    face_locations face_recognition_encodings [url] in
  (face_detected analysis = false ∧ face_encodings analysis = [] ∧
   image_quality analysis = []) ∧
  (∀ e, analyze_profile use_apis session_get imdecode face_locations
          face_recognition_encodings p = Ok e →
        image_analysis e = Some analysis) ∧
  (phone p ≠ PyNone →
   ∃ e, analyze_profile use_apis session_get imdecode face_locations
          face_recognition_encodings p = Ok e) ∧
  (phone p = PyNone →
   analyze_profile use_apis session_get imdecode face_locations
     face_recognition_encodings p = Raise TypeError).
Proof.
  intros Himages Hdown analysis.
  assert (Hnone : analysis = no_images).
  { unfold analysis, analyze_images, analyze_image, examined. simpl.
    by rewrite Hdown. }
  split; [by rewrite Hnone|].
  unfold analyze_profile, bind. rewrite Himages. simpl.
  fold analysis. split; [|split].
  - intros e Hrun.
    destruct (phone p) as [| |ph]; simpl in Hrun; [| discriminate |].
    + by injection Hrun as <-.
    + unfold analyze_phone in Hrun.
      destruct (Re.re_match _ _), use_apis; simpl in Hrun; by injection Hrun as <-.
  - intros Hphone.
    destruct (phone p) as [| |ph]; simpl; [eauto | done |].
    unfold analyze_phone.
    destruct (Re.re_match _ _), use_apis; simpl; eauto.
  - intros ->. reflexivity.
Qed.

Lemma failed_download_is_skipped_witness :
  analyze_profile false offline no_decoder no_faces no_encodings
    one_image_no_phone = Raise TypeError ∧
  face_detected (analyze_images false offline no_decoder no_faces no_encodings
                   ["http://shop.test/a.jpg"%string]) = false ∧
  ∃ e, analyze_profile false offline no_decoder no_faces no_encodings
         one_image_record = Ok e.
Proof.
  split; [|split].
  - apply (failed_download_is_skipped false offline no_decoder no_faces
             no_encodings one_image_no_phone "http://shop.test/a.jpg"
             eq_refl eq_refl).
    reflexivity.
  - apply (failed_download_is_skipped false offline no_decoder no_faces
             no_encodings one_image_record "http://shop.test/a.jpg"
             eq_refl eq_refl).
  - apply (failed_download_is_skipped false offline no_decoder no_faces
             no_encodings one_image_record "http://shop.test/a.jpg"
             eq_refl eq_refl).
    discriminate.
Defined.

(** C4: what the code does on a record without a phone number.  The
    record [parse_profile] builds always has the key [phone]; when the
    selector finds no phone the key holds [None], the phone branch raises
    [TypeError], and [analyze_profile] raises it in turn: no enriched
    profile and no score. *)
Theorem analyze_profile_raises_without_phone use_apis session_get imdecode
    face_locations face_recognition_encodings :
  analyze_profile use_apis session_get imdecode face_locations
    face_recognition_encodings blank_record = Raise TypeError ∧
  ∀ Html (n l d m : Html → option string) (a : Html → option Z)
    (i : Html → list string) base_url w content,
    analyze_profile use_apis session_get imdecode face_locations
      face_recognition_encodings
      (Scraper.parse_profile Html n (fun _ => None) l a d m i base_url w content)
    = Raise TypeError.
Proof. split; reflexivity. Qed.

End AnalyzerClaims.

(** * Checks of the embedding on concrete inputs *)

Section Checks.

Import Img Analyzer Fixtures.

Example phone_pattern_accepts :
  map (Re.re_match Re.phone_pattern)
    ["+1 (555) 123-4567"; "555-123-4567"; "5551234567"; "1555.123.4567 ext 9"]%string
  = [true; true; true; true].
Proof. vm_compute. reflexivity. Qed.

Example phone_pattern_rejects :
  map (Re.re_match Re.phone_pattern) ["555123456"; "call me"; ""; "x5551234567"]%string
  = [false; false; false; false].
Proof. vm_compute. reflexivity. Qed.

Example resolve_joins_onto_base_url :
  map (Scraper.resolve "http://shop.test/") ["/a"; "a/b"; "//a"; "https://x.test/"]%string
  = ["http://shop.test/a"; "http://shop.test/a/b"; "http://shop.test/a";
     "https://x.test/"]%string.
Proof. vm_compute. reflexivity. Qed.

Example profile_marker_ignores_case :
  map (fun url => contains (lower url) "profile")
    ["http://shop.test/Profile/1"; "http://shop.test/PROFILES"; "http://shop.test/about"]%string
  = [true; true; false].
Proof. vm_compute. reflexivity. Qed.

Example listing_crawl :
  map name (fst (crawl listing url_shop 2)) = [Val "Ada"; Val "Bob"]%string ∧
  (requests (snd (crawl listing url_shop 2))).*1
  = [url_shop; "http://shop.test/profile/1"; "http://shop.test/profile/2"]%string.
Proof. split; vm_compute; reflexivity. Qed.

Example limit_zero_fetches_the_seed_only :
  requests (snd (crawl chain url_A 0)) = [(url_A, 0%Z)].
Proof. vm_compute. reflexivity. Qed.

Example negative_limit_fetches_nothing :
  requests (snd (crawl chain url_A (-1))) = [].
Proof. vm_compute. reflexivity. Qed.

Example checkerboard_quality :
  (assess_image_quality
     {| rows := 2; cols := 2;
        cell := fun i j => if (i =? j)%nat then (255, 255, 255)%N else (0, 0, 0)%N |}
   == 0.75)%Q.
Proof. vm_compute. reflexivity. Qed.

Example gray_is_computed_in_fixed_point :
  gray_of (140, 173, 10)%N = 120%Z ∧ gray_of (0, 0, 255)%N = 76%Z.
Proof. vm_compute. done. Qed.

Example faint_checkerboard_quality :
  (assess_image_quality (checkerboard 10 12) == (64 / 500 + 11 / 255) / 2)%Q.
Proof. vm_compute. reflexivity. Qed.

Example empty_record_scores_zero :
  (calculate_authenticity_score
     {| base := {| name := PyNone; phone := PyNone; location := PyNone;
                   age := PyNone; date := PyNone; message := PyNone;
                   images := Val []; metadata := PyNone |};
        image_analysis := Some no_images; phone_analysis := None;
        location_analysis := None; authenticity_score := None |} == 0)%Q.
Proof. vm_compute. reflexivity. Qed.

End Checks.

(** * Further properties *)

(** ** Strings and patterns *)

Section TextFacts.

Import Text.

Lemma app_cons c s t : String c s +:+ t = String c (s +:+ t).
Proof. reflexivity. Qed.

Lemma app_empty_l s : EmptyString +:+ s = s.
Proof. reflexivity. Qed.

Lemma app_empty_r s : s +:+ EmptyString = s.
Proof. induction s as [|c s IH]; [done|]. by rewrite app_cons, IH. Qed.

Lemma app_assoc_str s t u : (s +:+ t) +:+ u = s +:+ (t +:+ u).
Proof. induction s as [|c s IH]; [done|]. by rewrite !app_cons, IH. Qed.

Lemma length_app_str s t :
  String.length (s +:+ t) = (String.length s + String.length t)%nat.
Proof. induction s as [|c s IH]; [done|]. rewrite app_cons. simpl. by rewrite IH. Qed.

Lemma app_inv_tail_str s s' t : s +:+ t = s' +:+ t → s = s'.
Proof.
  revert s'. induction s as [|c s IH]; intros [|c' s'] Heq.
  - done.
  - apply (f_equal String.length) in Heq.
    rewrite app_cons, app_empty_l in Heq. simpl in Heq.
    rewrite length_app_str in Heq. lia.
  - apply (f_equal String.length) in Heq.
    rewrite app_cons, app_empty_l in Heq. simpl in Heq.
    rewrite length_app_str in Heq. lia.
  - rewrite !app_cons in Heq. injection Heq as -> Heq. f_equal. by apply IH.
Qed.

Lemma take_app_length m x :
  take (String.length (m +:+ x) - String.length x) (m +:+ x) = m.
Proof.
  rewrite length_app_str.
  replace (String.length m + String.length x - String.length x)%nat
    with (String.length m) by lia.
  induction m as [|c m IH].
  - rewrite app_empty_l. by destruct x.
  - rewrite app_cons. cbn [String.length take]. by rewrite IH.
Qed.

Lemma all_app p s t : all p (s +:+ t) = all p s && all p t.
Proof.
  induction s as [|c s IH]; [done|].
  rewrite app_cons. simpl. by rewrite IH, andb_assoc.
Qed.

(** What the matcher leaves was reached by matching a prefix. *)
Lemma star_rests_sound p s : ∀ x,
  x ∈ Re.star_rests p s → ∃ m, s = m +:+ x ∧ matches (Re.StarClass p) m.
Proof.
  induction s as [|c s IH]; intros x Hx; simpl in Hx.
  - apply list_elem_of_singleton in Hx as ->.
    exists EmptyString. split; [done|constructor].
  - apply elem_of_app in Hx as [Hx|Hx].
    + destruct (p c) eqn:Hc; [|by apply elem_of_nil in Hx].
      destruct (IH x Hx) as (m & -> & Hm).
      exists (String c m). split; [done|by constructor].
    + apply list_elem_of_singleton in Hx as ->.
      exists EmptyString. split; [done|constructor].
Qed.

Lemma rests_sound r : ∀ s x,
  x ∈ Re.rests r s → ∃ m, s = m +:+ x ∧ matches r m.
Proof.
  induction r as [p|r IH|p|r1 IH1 r2 IH2]; intros s x Hx; simpl in Hx.
  - destruct s as [|c s]; [by apply elem_of_nil in Hx|].
    destruct (p c) eqn:Hc; [|by apply elem_of_nil in Hx].
    apply list_elem_of_singleton in Hx as ->.
    exists (String c EmptyString). split; [done|by constructor].
  - apply elem_of_app in Hx as [Hx|Hx].
    + destruct (IH s x Hx) as (m & -> & Hm). exists m.
      split; [done|by apply matches_opt_some].
    + apply list_elem_of_singleton in Hx as ->.
      exists EmptyString. split; [done|apply matches_opt_none].
  - by apply star_rests_sound.
  - apply list_elem_of_In, in_flat_map in Hx as (y & Hy & Hx).
    apply list_elem_of_In in Hy, Hx.
    destruct (IH1 s y Hy) as (m1 & -> & Hm1).
    destruct (IH2 y x Hx) as (m2 & -> & Hm2).
    exists (m1 +:+ m2). split; [by rewrite app_assoc_str|by constructor].
Qed.

(** Whatever matches as a whole is found as a prefix. *)
Lemma rests_complete r m :
  matches r m → ∀ t, t ∈ Re.rests r (m +:+ t).
Proof.
  induction 1 as [p c Hc|r m _ IH|r|p|p c m Hc _ IH|r1 r2 m1 m2 _ IH1 _ IH2];
    intros t.
  - rewrite app_cons, app_empty_l. simpl. rewrite Hc. apply list_elem_of_here.
  - simpl. apply elem_of_app. left. apply IH.
  - simpl. apply elem_of_app. right. apply list_elem_of_here.
  - rewrite app_empty_l. simpl. destruct t as [|c t]; simpl.
    + apply list_elem_of_here.
    + apply elem_of_app. right. apply list_elem_of_here.
  - rewrite app_cons. simpl. rewrite Hc. apply elem_of_app. left. apply IH.
  - simpl. apply list_elem_of_In, in_flat_map.
    exists (m2 +:+ t). split; apply list_elem_of_In.
    + rewrite app_assoc_str. apply IH1.
    + apply IH2.
Qed.

Lemma re_match_true r s :
  Re.re_match r s = true ↔ ∃ m x, s = m +:+ x ∧ matches r m.
Proof.
  unfold Re.re_match. split.
  - destruct (Re.rests r s) as [|x l] eqn:Hr; [done|]. intros _.
    destruct (rests_sound r s x) as (m & Hs & Hm).
    { rewrite Hr. apply list_elem_of_here. }
    eauto.
  - intros (m & x & -> & Hm).
    pose proof (rests_complete r m Hm x) as Hin.
    destruct (Re.rests r (m +:+ x)); [by apply elem_of_nil in Hin|done].
Qed.

Lemma matches_min_length r m :
  matches r m → (min_length r ≤ String.length m)%nat.
Proof.
  induction 1; simpl; try lia.
  rewrite length_app_str. lia.
Qed.

Lemma search_unfold r s :
  search r s =
  match Re.rests r s with
  | rest :: _ => Some (take (String.length s - String.length rest) s)
  | [] => match s with String _ s' => search r s' | EmptyString => None end
  end.
Proof. by destruct s. Qed.

(** [search] returns a match, taken from the text. *)
Lemma search_some r s : ∀ found,
  search r s = Some found →
  matches r found ∧ ∃ before after, s = before +:+ found +:+ after.
Proof.
  induction s as [|c s IH]; intros found Hs; rewrite search_unfold in Hs.
  - destruct (Re.rests r EmptyString) as [|x l] eqn:Hr; [done|].
    injection Hs as <-.
    destruct (rests_sound r EmptyString x) as (m & Hm & Hmatch).
    { rewrite Hr. apply list_elem_of_here. }
    destruct m as [|c m]; [|done]. rewrite app_empty_l in Hm. subst x.
    simpl. split; [done|]. by exists EmptyString, EmptyString.
  - destruct (Re.rests r (String c s)) as [|x l] eqn:Hr.
    + destruct (IH found Hs) as (Hm & before & after & ->).
      split; [done|]. exists (String c before), after. by rewrite app_cons.
    + injection Hs as <-.
      destruct (rests_sound r (String c s) x) as (m & Hm & Hmatch).
      { rewrite Hr. apply list_elem_of_here. }
      change (S (String.length s)) with (String.length (String c s)).
      rewrite Hm, take_app_length.
      split; [done|]. exists EmptyString, x. by rewrite app_empty_l.
Qed.

(** [search] finds nothing only when no suffix of the text starts with a
    match. *)
Lemma search_none r s :
  search r s = None → ∀ before m after, s = before +:+ m +:+ after → ¬ matches r m.
Proof.
  induction s as [|c s IH]; intros Hs before m after Heq Hm;
    rewrite search_unfold in Hs.
  - destruct (Re.rests r EmptyString) as [|x l] eqn:Hr; [|done].
    destruct before; [|done]. rewrite app_empty_l in Heq.
    pose proof (rests_complete r m Hm after) as Hin.
    rewrite <- Heq, Hr in Hin. by apply elem_of_nil in Hin.
  - destruct (Re.rests r (String c s)) as [|x l] eqn:Hr; [|done].
    destruct before as [|b before].
    + rewrite app_empty_l in Heq.
      pose proof (rests_complete r m Hm after) as Hin.
      rewrite <- Heq, Hr in Hin. by apply elem_of_nil in Hin.
    + rewrite app_cons in Heq. injection Heq as -> ->.
      by apply (IH Hs before m after).
Qed.

End TextFacts.

(** ** The phone pattern of the analyzer *)

Section PhonePatternFacts.

Import Text Analyzer.

Lemma count_app p s t : count p (s +:+ t) = (count p s + count p t)%nat.
Proof.
  induction s as [|c s IH]; [done|]. rewrite app_cons. simpl. rewrite IH. lia.
Qed.

Lemma any_app p s t : any p (s +:+ t) = any p s || any p t.
Proof.
  induction s as [|c s IH]; [done|]. rewrite app_cons. simpl.
  by rewrite IH, orb_assoc.
Qed.

Lemma matches_seq_inv r1 r2 m :
  matches (Re.Seq r1 r2) m →
  ∃ m1 m2, m = m1 +:+ m2 ∧ matches r1 m1 ∧ matches r2 m2.
Proof. inversion 1; subst; eauto. Qed.

Lemma matches_class_inv p m :
  matches (Re.Class p) m → ∃ c, m = String c EmptyString ∧ p c = true.
Proof. inversion 1; subst; eauto. Qed.

Lemma matches_star_all p m : matches (Re.StarClass p) m → all p m = true.
Proof.
  remember (Re.StarClass p) as r eqn:Hr.
  induction 1 as [| | |q|q c m Hc _ IH|]; try discriminate Hr.
  - done.
  - injection Hr as ->. simpl. by rewrite Hc, IH.
Qed.

Lemma matches_digit m : matches (Re.Class Re.is_digit) m → count Re.is_digit m = 1%nat.
Proof. intros (c & -> & Hc)%matches_class_inv. simpl. by rewrite Hc. Qed.

Lemma matches_digits3 m : matches Re.digits3 m → count Re.is_digit m = 3%nat.
Proof.
  unfold Re.digits3.
  intros (m1 & m23 & -> & H1 & (m2 & m3 & -> & H2 & H3)%matches_seq_inv)%matches_seq_inv.
  rewrite !count_app.
  by rewrite (matches_digit _ H1), (matches_digit _ H2), (matches_digit _ H3).
Qed.

(** Whatever [phone_pattern] matches has at least ten digits. *)
Lemma matches_phone_pattern_digits m :
  matches Re.phone_pattern m → (10 ≤ count Re.is_digit m)%nat.
Proof.
  unfold Re.phone_pattern, Re.digits4.
  intros (? & ? & -> & _ & H)%matches_seq_inv.
  apply matches_seq_inv in H as (? & ? & -> & _ & H).
  apply matches_seq_inv in H as (? & ? & -> & _ & H).
  apply matches_seq_inv in H as (? & ? & -> & _ & H).
  apply matches_seq_inv in H as (? & ? & -> & Ha%matches_digits3 & H).
  apply matches_seq_inv in H as (? & ? & -> & _ & H).
  apply matches_seq_inv in H as (? & ? & -> & _ & H).
  apply matches_seq_inv in H as (? & ? & -> & Hb%matches_digits3 & H).
  apply matches_seq_inv in H as (? & ? & -> & _ & H).
  apply matches_seq_inv in H as (? & ? & -> & Hc%matches_digit & Hd%matches_digits3).
  rewrite !count_app. lia.
Qed.

(** What [analyze_phone] returns for a string. *)
Lemma analyze_phone_string use_apis phone :
  analyze_phone use_apis (Some phone)
  = Ok {| phone_is_valid := Re.re_match Re.phone_pattern phone;
          carrier := None; phone_location := None;
          associated_names := []; phone_associated_profiles := [] |}.
Proof.
  unfold analyze_phone. by destruct (Re.re_match _ _), use_apis.
Qed.

(** X1.  [analyze_phone] accepts a number on its beginning alone: a string
    that starts with a valid phone number is valid, whatever follows. *)
Theorem valid_phone_ignores_what_follows use_apis phone trailing a :
  analyze_phone use_apis (Some phone) = Ok a →
  phone_is_valid a = true →
  ∃ a', analyze_phone use_apis (Some (phone +:+ trailing)) = Ok a' ∧
        phone_is_valid a' = true.
Proof.
  rewrite !analyze_phone_string. intros [= <-]. simpl. intros Hvalid.
  eexists. split; [reflexivity|]. simpl.
  apply re_match_true in Hvalid as (m & x & -> & Hm).
  apply re_match_true. exists m, (x +:+ trailing).
  by rewrite app_assoc_str.
Qed.

Lemma valid_phone_ignores_what_follows_witness :
  ∃ a', analyze_phone false (Some ("555-123-4567" +:+ " is not my number")) = Ok a' ∧
        phone_is_valid a' = true.
Proof.
  eapply (valid_phone_ignores_what_follows false "555-123-4567"
            " is not my number"); [reflexivity|].
  vm_compute. reflexivity.
Defined.

(** X2.  A phone number [analyze_phone] finds valid has at least ten
    digits. *)
Theorem valid_phone_has_ten_digits use_apis phone a :
  analyze_phone use_apis (Some phone) = Ok a →
  phone_is_valid a = true →
  (10 ≤ count Re.is_digit phone)%nat.
Proof.
  rewrite analyze_phone_string. intros [= <-]. simpl. intros Hvalid.
  apply re_match_true in Hvalid as (m & x & -> & Hm).
  rewrite count_app. apply matches_phone_pattern_digits in Hm. lia.
Qed.

Lemma valid_phone_has_ten_digits_witness :
  (10 ≤ count Re.is_digit "+1 (555) 123-4567")%nat.
Proof.
  eapply (valid_phone_has_ten_digits false "+1 (555) 123-4567"); [reflexivity|].
  vm_compute. reflexivity.
Defined.

End PhonePatternFacts.

(** ** The selectors of the scraper *)

Section ExtractFacts.

Import Text Extract.

Variable Html : Type.
Variable find_text : string -> string -> Html -> option string.
Variable find_all_img_src : Html -> list (option string).

Local Abbreviation _extract_phone := (_extract_phone Html find_text).
Local Abbreviation _extract_age := (_extract_age Html find_text).

Lemma matches_opt_inv r m :
  matches (Re.Opt r) m → m = EmptyString ∨ matches r m.
Proof. inversion 1; subst; auto. Qed.

Lemma matches_plus_class p m :
  matches (Re.Seq (Re.Class p) (Re.StarClass p)) m →
  m ≠ EmptyString ∧ all p m = true.
Proof.
  intros (m1 & m2 & -> & (c & -> & Hc)%matches_class_inv & H2%matches_star_all)
    %matches_seq_inv.
  rewrite app_cons, app_empty_l. split; [done|]. simpl. by rewrite Hc, H2.
Qed.

Lemma any_in_the_middle p before c after :
  p c = true → any p (before +:+ String c EmptyString +:+ after) = true.
Proof.
  intros Hc. rewrite !any_app. simpl. rewrite Hc.
  by rewrite orb_true_r.
Qed.

Lemma any_true p s :
  any p s = true → ∃ before c after,
    s = before +:+ String c EmptyString +:+ after ∧ p c = true.
Proof.
  induction s as [|c s IH]; [done|]. simpl.
  destruct (p c) eqn:Hc; simpl.
  - intros _. by exists EmptyString, c, s.
  - intros (before & c' & after & -> & Hc')%IH.
    by exists (String c before), c', after.
Qed.

Lemma all_any p s : s ≠ EmptyString → all p s = true → any p s = true.
Proof.
  destruct s as [|c s]; [done|]. simpl. intros _.
  by intros [-> _]%andb_true_iff.
Qed.

Lemma search_plus_class_none p s :
  search (Re.Seq (Re.Class p) (Re.StarClass p)) s = None ↔ any p s = false.
Proof.
  split.
  - intros Hnone. destruct (any p s) eqn:Hany; [|done].
    apply any_true in Hany as (before & c & after & Hs & Hc).
    exfalso. apply (search_none _ _ Hnone before (String c EmptyString) after Hs).
    apply (matches_seq _ _ (String c EmptyString) EmptyString);
      [by constructor|constructor].
  - intros Hany. destruct (search _ s) as [found|] eqn:Hs; [|done].
    apply search_some in Hs as ((Hne & Hall)%matches_plus_class
                                & before & after & ->).
    rewrite !any_app, (all_any _ _ Hne Hall), orb_true_r in Hany. done.
Qed.

Lemma search_phone_text_none s :
  search phone_text_pattern s = None ↔ any is_phone_char s = false.
Proof.
  split.
  - intros Hnone. destruct (any is_phone_char s) eqn:Hany; [|done].
    apply any_true in Hany as (before & c & after & Hs & Hc).
    exfalso. apply (search_none _ _ Hnone before (String c EmptyString) after Hs).
    apply (matches_seq _ _ EmptyString (String c EmptyString));
      [apply matches_opt_none|].
    apply (matches_seq _ _ (String c EmptyString) EmptyString);
      [by constructor|constructor].
  - intros Hany. destruct (search _ s) as [found|] eqn:Hs; [|done].
    apply search_some in Hs as (Hm & before & after & ->).
    apply matches_seq_inv in Hm
      as (sign & body & -> & _ & (Hne & Hall)%matches_plus_class).
    rewrite !any_app, (all_any _ _ Hne Hall), !orb_true_r in Hany. done.
Qed.

(** X3.  When the page has a phone block, [_extract_phone] finds no phone
    exactly when the stripped text of the block has no digit, no white space
    and no hyphen; a page without the block has no phone either. *)
Theorem extract_phone_none (soup : Html) :
  (find_text "div" "phone-number" soup = None → _extract_phone soup = None) ∧
  (∀ text, find_text "div" "phone-number" soup = Some text →
     (_extract_phone soup = None ↔ any is_phone_char (strip text) = false)).
Proof.
  unfold Extract._extract_phone. split.
  - by intros ->.
  - intros text ->. apply search_phone_text_none.
Qed.

(** X4.  The phone [_extract_phone] returns is a piece of the stripped text
    of the phone block: an optional [+] followed by at least one character,
    all of them digits, white space or hyphens.  So a number is cut at its
    first parenthesis, dot or letter. *)
Theorem extract_phone_shape (soup : Html) (phone : string) :
  _extract_phone soup = Some phone →
  ∃ text before sign body after,
    find_text "div" "phone-number" soup = Some text ∧
    strip text = before +:+ phone +:+ after ∧
    phone = sign +:+ body ∧
    (sign = EmptyString ∨ sign = "+"%string) ∧
    body ≠ EmptyString ∧
    all is_phone_char body = true.
Proof.
  unfold Extract._extract_phone.
  destruct (find_text "div" "phone-number" soup) as [text|]; [|done].
  intros (Hm & before & after & Hs)%search_some.
  apply matches_seq_inv in Hm
    as (sign & body & -> & Hsign%matches_opt_inv & (Hne & Hall)%matches_plus_class).
  exists text, before, sign, body, after. repeat split; try done.
  destruct Hsign as [->|(c & -> & Hc)%matches_class_inv]; [by left|right].
  apply Ascii.eqb_eq in Hc as <-. done.
Qed.

Lemma is_digit_value c : Re.is_digit c = true → 0 ≤ digit_value c ≤ 9.
Proof.
  unfold Re.is_digit, digit_value.
  intros [H1%Nat.leb_le H2%Nat.leb_le]%andb_true_iff. lia.
Qed.

Lemma int_from_nonneg s : ∀ acc,
  0 ≤ acc → all Re.is_digit s = true → 0 ≤ int_from acc s.
Proof.
  induction s as [|c s IH]; intros acc Hacc Hall; simpl in *; [done|].
  apply andb_true_iff in Hall as [Hc%is_digit_value Hall].
  apply IH; [lia|done].
Qed.

(** X5.  [_extract_age] returns [None] in three cases only: the page has no
    age block, the text of the block has no digit, or its first run of
    digits is longer than the 4300 digits [int] accepts.  Otherwise it
    returns the number the first run of digits denotes, which is never
    negative. *)
Theorem extract_age_defined (soup : Html) :
  (_extract_age soup = None ↔
     ∀ text, find_text "div" "age" soup = Some text →
       any Re.is_digit text = false ∨
       ∃ digits, search age_pattern text = Some digits ∧
                 (int_max_str_digits < String.length digits)%nat) ∧
  (∀ n, _extract_age soup = Some n →
     0 ≤ n ∧
     ∃ text digits before after,
       find_text "div" "age" soup = Some text ∧
       search age_pattern text = Some digits ∧
       text = before +:+ digits +:+ after ∧
       all Re.is_digit digits = true ∧
       (String.length digits ≤ int_max_str_digits)%nat ∧
       n = int_from 0 digits).
Proof.
  unfold Extract._extract_age, int. split.
  - destruct (find_text "div" "age" soup) as [text|]; [|by split].
    split.
    + intros Hnone t [= <-].
      destruct (search age_pattern text) as [digits|] eqn:Hs.
      * right. exists digits. split; [done|].
        destruct (Nat.ltb_spec int_max_str_digits (String.length digits)); done.
      * left. by apply search_plus_class_none.
    + intros Hany. destruct (Hany text eq_refl) as [Hno|(digits & Hs & Hlong)].
      * apply search_plus_class_none in Hno.
        unfold age_pattern. by rewrite Hno.
      * rewrite Hs.
        destruct (Nat.ltb_spec int_max_str_digits (String.length digits)); [done|lia].
  - intros n. destruct (find_text "div" "age" soup) as [text|]; [|done].
    destruct (search age_pattern text) as [digits|] eqn:Hs; [|done].
    destruct (Nat.ltb_spec int_max_str_digits (String.length digits)) as [|Hshort];
      [done|].
    intros [= <-].
    pose proof Hs as ((_ & Hall)%matches_plus_class & before & after & Htext)
      %search_some.
    split; [by apply int_from_nonneg|].
    by exists text, digits, before, after.
Qed.

End ExtractFacts.

Lemma extract_phone_none_witness :
  Extract._extract_phone unit (fun _ _ _ => Some "  unlisted  "%string) tt = None.
Proof.
  destruct (extract_phone_none unit (fun _ _ _ => Some "  unlisted  "%string) tt)
    as [_ H].
  apply (H "  unlisted  "%string eq_refl). vm_compute. reflexivity.
Defined.

Lemma extract_phone_shape_witness :
  Extract._extract_phone unit (fun _ _ _ => Some "(555) 123-4567"%string) tt
  = Some "555"%string ∧
  ∃ text before sign body after,
    Some "(555) 123-4567"%string = Some text ∧
    Text.strip text = before +:+ "555" +:+ after ∧
    "555"%string = sign +:+ body ∧
    (sign = EmptyString ∨ sign = "+"%string) ∧
    body ≠ EmptyString ∧
    Text.all Extract.is_phone_char body = true.
Proof.
  split; [vm_compute; reflexivity|].
  apply (extract_phone_shape unit (fun _ _ _ => Some "(555) 123-4567"%string) tt).
  vm_compute. reflexivity.
Defined.

Lemma extract_age_defined_witness :
  0 ≤ 25 ∧
  Extract._extract_age unit (fun _ _ _ => Some "Age: 25 years"%string) tt = Some 25.
Proof.
  destruct (extract_age_defined unit (fun _ _ _ => Some "Age: 25 years"%string) tt)
    as [_ H].
  split; [apply (H 25)|]; vm_compute; reflexivity.
Defined.

Example age_of_too_many_digits :
  let digits n := string_of_list_ascii (repeat "7"%char n) in
  Extract._extract_age unit (fun _ _ _ => Some (digits 4301%nat)) tt = None ∧
  Extract._extract_age unit (fun _ _ _ => Some (digits 3%nat)) tt = Some 777.
Proof. vm_compute. done. Qed.

(** ** The analyzer *)

Section AnalyzerExtras.

Import Img Analyzer.
Local Open Scope Q_scope.

Variable use_apis : bool.
Variable session_get : string -> result Response.
Variable imdecode : list Byte.byte -> result (option Image).
Variable face_locations : Image -> result (list Box).
Variable face_recognition_encodings : Image -> list Box -> result (list Encoding).

Local Abbreviation analyze_images_with apis :=
  (analyze_images apis session_get imdecode face_locations
     face_recognition_encodings).
Local Abbreviation analyze_profile_with apis :=
  (analyze_profile apis session_get imdecode face_locations
     face_recognition_encodings).
Local Abbreviation analyze_images := (analyze_images_with use_apis).
Local Abbreviation analyze_profile := (analyze_profile_with use_apis).
Local Abbreviation examined := (examined session_get imdecode).
Local Abbreviation detect_face :=
  (detect_face face_locations face_recognition_encodings).

Ltac run_analyze_profile p :=
  unfold Analyzer.analyze_profile, bind, required, rmap;
  destruct (images p) as [| |?urls]; destruct (phone p) as [| |?ph];
  lazy beta iota; rewrite ?analyze_phone_string; lazy beta iota.

(** What [analyze_profile] returns when no branch raises. *)
Lemma analyze_profile_returns (p : Profile) :
  images p ≠ PyNone → phone p ≠ PyNone →
  ∃ ia pa la,
    analyze_profile p
    = Ok {| base := p; image_analysis := ia; phone_analysis := pa;
            location_analysis := la;
            authenticity_score :=
              Some (calculate_authenticity_score
                      {| base := p; image_analysis := ia; phone_analysis := pa;
                         location_analysis := la; authenticity_score := None |}) |} ∧
    ia = match images p with Val urls => Some (analyze_images urls) | _ => None end ∧
    pa = match phone p with
         | Val ph => Some {| phone_is_valid := Re.re_match Re.phone_pattern ph;
                             carrier := None; phone_location := None;
                             associated_names := [];
                             phone_associated_profiles := [] |}
         | _ => None
         end ∧
    la = match location p with
         | Missing => None
         | _ => Some {| location_is_valid := false; coordinates := None;
                        location_associated_profiles := [] |}
         end.
Proof.
  intros Himages Hphone. run_analyze_profile p; try done;
    eexists _, _, _; (split; [reflexivity|]); (split; [reflexivity|]);
    (split; [reflexivity|]);
    unfold analyze_location, geocode_location;
    by destruct (location p), use_apis.
Qed.

(** An exception of [analyze_profile] is a [TypeError], for [None] under
    [images] or [phone]. *)
Lemma analyze_profile_raise_cause (p : Profile) e :
  analyze_profile p = Raise e →
  e = TypeError ∧ (images p = PyNone ∨ phone p = PyNone).
Proof. run_analyze_profile p; try done; intros [= <-]; auto. Qed.

Lemma analyze_profile_none_raises (p : Profile) :
  images p = PyNone ∨ phone p = PyNone → analyze_profile p = Raise TypeError.
Proof. run_analyze_profile p; try done; by intros [|]. Qed.

Lemma analyze_profile_ok_fields (p : Profile) e :
  analyze_profile p = Ok e → images p ≠ PyNone ∧ phone p ≠ PyNone.
Proof.
  intros Hrun. split; intros Hnone;
    rewrite analyze_profile_none_raises in Hrun by auto; done.
Qed.

(** X6.  [analyze_profile] raises exactly when the record holds [None]
    under [images] or under [phone]; what it raises is a [TypeError].  A
    missing key, or [None] under any other key, raises nothing. *)
Theorem analyze_profile_raises_iff (p : Profile) :
  (∀ e, analyze_profile p = Raise e →
        e = TypeError ∧ (images p = PyNone ∨ phone p = PyNone)) ∧
  (images p = PyNone ∨ phone p = PyNone → analyze_profile p = Raise TypeError) ∧
  (images p ≠ PyNone → phone p ≠ PyNone → ∃ e, analyze_profile p = Ok e).
Proof.
  split; [|split].
  - intros e. apply analyze_profile_raise_cause.
  - apply analyze_profile_none_raises.
  - intros Hi Hp. destruct (analyze_profile_returns p Hi Hp) as (? & ? & ? & H & _).
    eauto.
Qed.

Lemma note_reverse_nothing a : note_reverse [] a = a.
Proof. destruct a. unfold note_reverse. simpl. by rewrite app_nil_r. Qed.

Lemma analyze_images_any_apis urls :
  analyze_images_with true urls = analyze_images_with false urls.
Proof.
  unfold Analyzer.analyze_images. apply fold_left_pointwise.
  intros a url. unfold analyze_image.
  destruct (examined url); [|done].
  unfold reverse_image_search. by rewrite note_reverse_nothing.
Qed.

(** X7.  The flag [use_apis] changes nothing: with and without it
    [analyze_profile] returns the same enriched profile, or raises the same
    exception. *)
Theorem use_apis_changes_nothing (p : Profile) :
  analyze_profile_with true p = analyze_profile_with false p.
Proof.
  unfold Analyzer.analyze_profile, bind.
  destruct (required (images p)) as [urls|]; [|done].
  assert (Hi : analyze_images_with true <$> urls = analyze_images_with false <$> urls).
  { destruct urls as [urls|]; [|done]. simpl. by rewrite analyze_images_any_apis. }
  rewrite Hi.
  destruct (phone p) as [| |ph]; lazy beta iota; rewrite ?analyze_phone_string;
    simpl; try done;
    by destruct (location p).
Qed.

Lemma omap_lengths {A B C D} (f : A → option B) (g : B → option C) (h : B → D)
    (l : list A) :
  (length (omap (fun x => f x ≫= g) l) ≤ length (omap (fun x => h <$> f x) l))%nat ∧
  (length (omap (fun x => h <$> f x) l) ≤ length l)%nat.
Proof.
  unfold omap. induction l as [|x l [IH1 IH2]]; simpl; [lia|].
  destruct (f x) as [y|]; simpl; [|lia].
  destruct (g y); simpl; lia.
Qed.

(** X8.  In the analysis of a list of image URLs there is at most one
    quality entry per URL, and at most one face encoding per quality entry:
    an image without a quality entry has no encoding. *)
Theorem encodings_qualities_urls (image_urls : list string) :
  (length (face_encodings (analyze_images image_urls))
   ≤ length (image_quality (analyze_images image_urls)))%nat ∧
  (length (image_quality (analyze_images image_urls)) ≤ length image_urls)%nat.
Proof.
  destruct (analyze_images_effect use_apis session_get imdecode face_locations
              face_recognition_encodings image_urls no_images) as (He & _ & Hq).
  unfold Analyzer.analyze_images. rewrite He, Hq. simpl.
  apply omap_lengths.
Qed.

(** X9.  The quality of an image is a number between 0 and 1, whatever the
    image. *)
Theorem image_quality_in_unit_interval (image : Image) :
  0 <= assess_image_quality image <= 1.
Proof.
  unfold assess_image_quality, cvtColor_BGR2GRAY.
  destruct (is_empty image); [split; discriminate|].
  match goal with |- context [sharpness_score ?g] => set (gray := g) end.
  destruct (sharpness_score_bounds gray) as [Hs0 Hs1].
  destruct (brightness_score_bounds gray
              (fun i j => gray_of_nonneg (cell image i j))) as [Hb0 Hb1].
  split; [apply Qle_shift_div_l|apply Qle_shift_div_r]; try reflexivity; lra.
Qed.

Lemma analyze_images_fold_nothing urls : ∀ a,
  fold_left (analyze_image use_apis session_get imdecode face_locations
               face_recognition_encodings) urls a = a.
Proof.
  induction urls as [|url urls IH]; intros a; [done|].
  cbn [fold_left]. rewrite IH. unfold analyze_image.
  by rewrite (examined_nothing session_get imdecode url).
Qed.

(** X10.  [analyze_images] never gets to look at an image: the test
    [if image_data:] raises for every decoded image, the exception is caught
    by the loop, and the analysis stays as it was initialized, with no face,
    no encoding and no quality entry, for every list of URLs. *)
Theorem analyze_images_stays_empty (image_urls : list string) :
  analyze_images image_urls = no_images.
Proof.
  unfold Analyzer.analyze_images.
  induction image_urls as [|url urls IH]; [done|].
  cbn [fold_left]. unfold analyze_image at 2.
  by rewrite (examined_nothing session_get imdecode url).
Qed.

Lemma fold_right_at_most_length l :
  Forall (fun q => q <= 1) l → fold_right Qplus 0 l <= inject_Z (Z.of_nat (length l)).
Proof.
  induction 1 as [|x l Hx _ IH].
  - simpl. apply Qle_refl.
  - cbn [fold_right length]. rewrite Nat2Z.inj_succ. unfold Z.succ.
    rewrite inject_Z_plus. change (inject_Z 1) with 1. lra.
Qed.

Lemma average_at_most_one qs :
  Forall (fun q => q <= 1) qs → Spec.average_image_quality qs <= 1.
Proof.
  intros Hqs. destruct qs as [|q qs]; [discriminate|].
  unfold Spec.average_image_quality.
  apply Qle_shift_div_r; [by apply length_positive|].
  rewrite Qmult_1_l. by apply fold_right_at_most_length.
Qed.

Lemma analyzed_qualities_bounds image_urls :
  Forall (fun q => 0 <= q <= 1) (image_quality (analyze_images image_urls)).
Proof.
  destruct (analyze_images_effect use_apis session_get imdecode face_locations
              face_recognition_encodings image_urls no_images) as (_ & _ & Hq).
  unfold Analyzer.analyze_images. rewrite Hq. simpl.
  apply qualities_measured_bounds.
Qed.

Lemma returned_location_invalid (p : Profile) (e : EnrichedProfile) :
  analyze_profile p = Ok e → get_location_valid e = false.
Proof.
  intros Hrun.
  destruct (analyze_profile_ok_fields p e Hrun) as [Hi Hp].
  destruct (analyze_profile_returns p Hi Hp) as (ia & pa & la & Hok & _ & _ & Hla).
  rewrite Hok in Hrun. injection Hrun as <-.
  unfold get_location_valid. simpl. rewrite Hla. by destruct (location p).
Qed.

(** X11.  No profile [analyze_profile] returns has a valid location, since
    the geocoder is a placeholder that finds nothing; so the 0.20 of the
    location is never earned and the score of a returned profile is at most
    0.8. *)
Theorem location_never_valid (p : Profile) (e : EnrichedProfile) :
  analyze_profile p = Ok e →
  get_location_valid e = false ∧
  ∃ s, authenticity_score e = Some s ∧ s <= 0.8.
Proof.
  intros Hrun.
  destruct (analyze_profile_ok_fields p e Hrun) as [Hi Hp].
  destruct (analyze_profile_returns p Hi Hp) as (ia & pa & la & Hok & Hia & _ & Hla).
  rewrite Hok in Hrun. injection Hrun as <-.
  assert (Hloc : get_location_valid
                   {| base := p; image_analysis := ia; phone_analysis := pa;
                      location_analysis := la; authenticity_score := None |} = false).
  { unfold get_location_valid. simpl. rewrite Hla. by destruct (location p). }
  split.
  { unfold get_location_valid in *. simpl in *. exact Hloc. }
  simpl. eexists. split; [reflexivity|].
  rewrite score_is_weighted_sum.
  eapply Qle_trans; [apply Q.le_min_r|].
  unfold Spec.weighted_sum. rewrite Hloc.
  match goal with |- context [Spec.average_image_quality ?qs] =>
    assert (Hq : Spec.average_image_quality qs <= 1)
  end.
  { apply average_at_most_one. unfold get_image_quality. simpl. rewrite Hia.
    destruct (images p) as [| |urls]; try constructor.
    eapply Forall_impl; [apply analyzed_qualities_bounds|]. simpl. tauto. }
  match goal with |- context [Spec.indicator (get_face_detected ?x)] =>
    pose proof (indicator_bounds (get_face_detected x));
    pose proof (indicator_bounds (get_phone_valid x))
  end.
  pose proof (completeness_bounds p). simpl.
  change (Spec.indicator false) with 0. lra.
Qed.

(** X12.  As [analyze_images] records nothing and no location is valid, the
    score of a profile [analyze_profile] returns is 0.20 for a valid phone
    plus 0.15 times the completeness of the record, hence at most 0.35. *)
Theorem returned_score (p : Profile) (e : EnrichedProfile) :
  analyze_profile p = Ok e →
  ∃ s, authenticity_score e = Some s ∧
       s == 0.2 * Spec.indicator (Derived.has_valid_phone p)
            + 0.15 * Spec.profile_completeness p ∧
       s <= 0.35.
Proof.
  intros Hrun.
  destruct (analyze_profile_ok_fields p e Hrun) as [Hi Hp].
  destruct (analyze_profile_returns p Hi Hp) as (ia & pa & la & Hok & Hia & Hpa & Hla).
  rewrite Hok in Hrun. injection Hrun as <-. simpl.
  eexists. split; [reflexivity|].
  assert (Hsum :
    Spec.weighted_sum
      {| base := p; image_analysis := ia; phone_analysis := pa;
         location_analysis := la; authenticity_score := None |}
    == 0.2 * Spec.indicator (Derived.has_valid_phone p)
       + 0.15 * Spec.profile_completeness p).
  { unfold Spec.weighted_sum, get_face_detected, get_phone_valid,
      get_location_valid, get_image_quality, Derived.has_valid_phone. simpl.
    rewrite Hia, Hpa, Hla.
    destruct (images p) as [| |urls];
      unfold Analyzer.analyze_images; rewrite ?analyze_images_fold_nothing;
      destruct (phone p) as [| |ph]; destruct (location p); simpl; ring. }
  pose proof (indicator_bounds (Derived.has_valid_phone p)).
  pose proof (completeness_bounds p).
  rewrite score_is_weighted_sum, Hsum.
  split.
  - apply Q.min_r. lra.
  - eapply Qle_trans; [apply Q.le_min_r|]. lra.
Qed.

End AnalyzerExtras.

Lemma location_never_valid_witness :
  ∃ e, Analyzer.analyze_profile true Fixtures.offline Fixtures.no_decoder
         Fixtures.no_faces Fixtures.no_encodings Fixtures.one_image_record = Ok e ∧
       Analyzer.get_location_valid e = false.
Proof.
  eexists. split; [reflexivity|].
  eapply (location_never_valid true Fixtures.offline Fixtures.no_decoder
            Fixtures.no_faces Fixtures.no_encodings Fixtures.one_image_record).
  reflexivity.
Defined.

Lemma returned_score_witness :
  ∃ e, Analyzer.analyze_profile false Fixtures.offline Fixtures.no_decoder
         Fixtures.no_faces Fixtures.no_encodings Fixtures.one_image_record = Ok e ∧
  ∃ s, Analyzer.authenticity_score e = Some s ∧
       (s == 0.2 * Spec.indicator (Derived.has_valid_phone Fixtures.one_image_record)
             + 0.15 * Spec.profile_completeness Fixtures.one_image_record)%Q ∧
       (s <= 0.35)%Q.
Proof.
  eexists. split; [reflexivity|].
  apply (returned_score false Fixtures.offline Fixtures.no_decoder
           Fixtures.no_faces Fixtures.no_encodings Fixtures.one_image_record).
  reflexivity.
Defined.

Lemma analyze_profile_raises_iff_witness :
  (∃ e, Analyzer.analyze_profile false Fixtures.offline Fixtures.no_decoder
          Fixtures.no_faces Fixtures.no_encodings Fixtures.one_image_record = Ok e) ∧
  Analyzer.analyze_profile false Fixtures.offline Fixtures.no_decoder
    Fixtures.no_faces Fixtures.no_encodings Fixtures.blank_record = Raise TypeError.
Proof.
  split.
  - apply (analyze_profile_raises_iff false Fixtures.offline Fixtures.no_decoder
             Fixtures.no_faces Fixtures.no_encodings Fixtures.one_image_record);
      discriminate.
  - apply (analyze_profile_raises_iff false Fixtures.offline Fixtures.no_decoder
             Fixtures.no_faces Fixtures.no_encodings Fixtures.blank_record).
    by right.
Defined.

(** ** The crawler *)

Section CrawlExtras.

Import Scraper Trace.

Variable Html : Type.
Variable find_all_a_href : Html -> list string.
Variable base_url : string.
Variable max_depth : Z.
Variable get_page_content : World -> string -> option Html.
Variable self_parse_profile : World -> Html -> Profile.

Local Abbreviation crawl_page_rec :=
  (crawl_page_rec Html find_all_a_href base_url max_depth
     get_page_content self_parse_profile).
Local Abbreviation crawl_page :=
  (crawl_page Html find_all_a_href base_url max_depth
     get_page_content self_parse_profile).
Local Abbreviation _scrape_state :=
  (_scrape_state Html find_all_a_href base_url max_depth
     get_page_content self_parse_profile).
Local Abbreviation scrape_states :=
  (scrape_states Html find_all_a_href base_url max_depth
     get_page_content self_parse_profile).
Local Abbreviation follow_link := (follow_link base_url).
Local Abbreviation refuses := (refuses max_depth).

Lemma follow_links_idle (recurse : string -> CrawlState -> CrawlState) links :
  (∀ href st, recurse href st = st) →
  ∀ st, fold_left (follow_link recurse) links st = st.
Proof.
  intros Hidle. induction links as [|link links IH]; intros st; simpl; [done|].
  rewrite IH. unfold Scraper.follow_link. by destruct (_ && _).
Qed.

(** X13.  With a negative depth limit a crawl requests nothing and finds
    nothing; with the limit 0 it requests the seed, and only the seed. *)
Theorem shallow_crawls (state : string) (w : World) :
  (max_depth < 0 → _scrape_state state w = ([], w)) ∧
  (max_depth = 0 → issued w (snd (_scrape_state state w)) = [(base_url, 0)]).
Proof.
  unfold Scraper._scrape_state. split.
  - intros Hneg. rewrite crawl_page_unfold.
    assert (Href : refuses base_url 0 (fresh_state w) = true).
    { apply refuses_true. by left. }
    by rewrite Href.
  - intros Hzero. rewrite crawl_page_unfold.
    assert (Href : refuses base_url 0 (fresh_state w) = false).
    { apply refuses_false. split; [lia|]. simpl. apply not_elem_of_empty. }
    rewrite Href. cbn zeta.
    destruct (get_page_content _ base_url) as [content|].
    + rewrite follow_links_idle.
      * apply issued_app. by destruct (contains _ _).
      * intros href st. rewrite crawl_page_unfold.
        assert (Hdeep : refuses href (0 + 1) st = true).
        { apply refuses_true. left. lia. }
        by rewrite Hdeep.
    + by apply issued_app.
Qed.

(** X14.  When the request for the seed raises, the crawl ends with no
    profile, and the seed is the only request made. *)
Theorem seed_failure_ends_crawl (state : string) (w : World) :
  0 ≤ max_depth →
  get_page_content w base_url = None →
  _scrape_state state w = ([], record_request base_url 0 w).
Proof.
  intros Hdepth Hnone. unfold Scraper._scrape_state.
  rewrite crawl_page_unfold.
  assert (Href : refuses base_url 0 (fresh_state w) = false).
  { apply refuses_false. split; [done|]. simpl. apply not_elem_of_empty. }
  rewrite Href. cbn zeta. simpl. by rewrite Hnone.
Qed.

Ltac same_set :=
  apply set_eq; intros ?; simpl;
  rewrite ?fmap_app, ?list_to_set_app_L; simpl;
  rewrite ?elem_of_union, ?elem_of_singleton, ?elem_of_empty; tauto.

(** The URLs visited are those that were visited before and those
    requested since. *)
Lemma follow_links_visited (recurse : string -> CrawlState -> CrawlState) :
  (∀ href st, ∃ seg,
     requests (world (recurse href st)) = requests (world st) ++ seg ∧
     visited_urls (recurse href st) = visited_urls st ∪ list_to_set seg.*1) →
  ∀ links st, ∃ seg,
    requests (world (fold_left (follow_link recurse) links st))
    = requests (world st) ++ seg ∧
    visited_urls (fold_left (follow_link recurse) links st)
    = visited_urls st ∪ list_to_set seg.*1.
Proof.
  intros Hrec links. induction links as [|link links IH]; intros st; simpl.
  - exists []. rewrite app_nil_r. split; [done|]. simpl. same_set.
  - destruct (IH (follow_link recurse st link)) as (seg2 & Hr2 & Hv2).
    assert (∃ seg1,
      requests (world (follow_link recurse st link)) = requests (world st) ++ seg1 ∧
      visited_urls (follow_link recurse st link)
      = visited_urls st ∪ list_to_set seg1.*1) as (seg1 & Hr1 & Hv1).
    { unfold Scraper.follow_link. destruct (_ && _); [apply Hrec|].
      exists []. rewrite app_nil_r. split; [done|]. simpl. same_set. }
    exists (seg1 ++ seg2). rewrite Hr2, Hr1, Hv2, Hv1, app_assoc.
    split; [done|]. same_set.
Qed.

Lemma crawl_page_rec_visited fuel : ∀ url depth st, ∃ seg,
  requests (world (crawl_page_rec fuel url depth st)) = requests (world st) ++ seg ∧
  visited_urls (crawl_page_rec fuel url depth st)
  = visited_urls st ∪ list_to_set seg.*1.
Proof.
  induction fuel as [|fuel IH]; intros url depth st; simpl.
  - exists []. rewrite app_nil_r. destruct (refuses url depth st); simpl;
      (split; [done|same_set]).
  - destruct (refuses url depth st).
    { exists []. rewrite app_nil_r. split; [done|]. simpl. same_set. }
    destruct (get_page_content _ url) as [content|].
    + match goal with |- context [fold_left ?f ?l ?s] =>
        destruct (follow_links_visited
                    (fun href => crawl_page_rec fuel href (depth + 1))
                    (fun href st' => IH href (depth + 1) st') l s)
          as (seg & Hr & Hv)
      end.
      exists ((url, depth) :: seg). rewrite Hr, Hv.
      destruct (contains _ _); simpl; rewrite <- app_assoc; simpl;
        (split; [done|same_set]).
    + exists [(url, depth)]. simpl. split; [done|same_set].
Qed.

(** X15.  After a crawl the visited set holds exactly the URLs that were
    requested: a URL is marked when, and only when, a request for it is
    made, whether the request succeeds or not. *)
Theorem visited_are_the_requested (w : World) (u : string) :
  let st := crawl_page base_url 0 (fresh_state w) in
  u ∈ visited_urls st ↔ u ∈ (issued w (world st)).*1.
Proof.
  intros st.
  destruct (crawl_page_rec_visited (levels_left max_depth 0) base_url 0
              (fresh_state w)) as (seg & Hr & Hv).
  simpl in Hr. unfold st, Scraper.crawl_page.
  rewrite (issued_app _ _ _ Hr), Hv. simpl.
  rewrite elem_of_union, elem_of_list_to_set. split; [|by right].
  intros [Hempty|Hin]; [|done]. by apply not_elem_of_empty in Hempty.
Qed.

Lemma follow_links_profiles (P : Profile → Prop)
    (recurse : string -> CrawlState -> CrawlState) :
  (∀ href st, Forall P (profiles st) → Forall P (profiles (recurse href st))) →
  ∀ links st, Forall P (profiles st) →
    Forall P (profiles (fold_left (follow_link recurse) links st)).
Proof.
  intros Hrec links. induction links as [|link links IH]; intros st Hst; simpl.
  - done.
  - apply IH. unfold Scraper.follow_link.
    destruct (_ && _); [by apply Hrec|done].
Qed.

(** A property of every parsed page is a property of every profile found. *)
Lemma crawl_page_rec_profiles (P : Profile → Prop) fuel :
  (∀ w content, P (self_parse_profile w content)) →
  ∀ url depth st,
    Forall P (profiles st) → Forall P (profiles (crawl_page_rec fuel url depth st)).
Proof.
  intros Hparse. induction fuel as [|fuel IH]; intros url depth st Hst; simpl.
  - by destruct (refuses url depth st).
  - destruct (refuses url depth st); [done|].
    destruct (get_page_content _ url) as [content|]; [|done].
    apply follow_links_profiles.
    + intros href st' Hst'. by apply IH.
    + destruct (contains _ _); simpl; [|done].
      apply Forall_app. split; [done|]. constructor; [apply Hparse|constructor].
Qed.

Lemma scrape_states_profiles (P : Profile → Prop) states :
  (∀ w content, P (self_parse_profile w content)) →
  ∀ acc w, Forall P acc → Forall P (fst (scrape_states states acc w)).
Proof.
  intros Hparse. induction states as [|state states IH]; intros acc w Hacc;
    cbn -[Scraper._scrape_state]; [done|].
  destruct (_scrape_state state w) as [ps w'] eqn:Hrun.
  apply IH. apply Forall_app. split; [done|].
  replace ps with (fst (_scrape_state state w)) by by rewrite Hrun.
  unfold Scraper._scrape_state. simpl.
  by apply crawl_page_rec_profiles.
Qed.

Lemma scrape_states_requests states : ∀ acc w,
  ∃ seg, requests (snd (scrape_states states acc w)) = requests w ++ seg ∧
    Forall (fun r => 0 ≤ snd r ≤ max_depth ∧ startswith (fst r) base_url = true) seg.
Proof.
  induction states as [|state states IH]; intros acc w;
    cbn -[Scraper._scrape_state].
  - exists []. by rewrite app_nil_r.
  - destruct (crawl_page_rec_extends Html find_all_a_href base_url max_depth
                get_page_content self_parse_profile
                (levels_left max_depth 0) base_url 0 (fresh_state w))
      as [_ (seg & Hreq & _ & Hall)].
    destruct (_scrape_state state w) as [ps w'] eqn:Hrun.
    assert (Hw : requests w' = requests w ++ seg).
    { replace w' with (snd (_scrape_state state w)) by by rewrite Hrun.
      exact Hreq. }
    destruct (IH (acc ++ ps) w') as (seg' & Hreq' & Hall').
    exists (seg ++ seg'). rewrite Hreq', Hw, app_assoc. split; [done|].
    apply Forall_app. split; [|done].
    eapply Forall_impl; [exact Hall|]. simpl.
    intros r (_ & _ & Hd & [->|Hpre]); split; auto using startswith_refl.
Qed.

End CrawlExtras.

Lemma shallow_crawls_witness :
  Fixtures.crawl Fixtures.chain Fixtures.url_A (-1) = ([], Fixtures.fresh) ∧
  Scraper.issued Fixtures.fresh (snd (Fixtures.crawl Fixtures.chain Fixtures.url_A 0))
  = [(Fixtures.url_A, 0)].
Proof.
  split.
  - apply (shallow_crawls Fixtures.Page Fixtures.page_links Fixtures.url_A (-1)
             (Fixtures.serve Fixtures.chain) Fixtures.fake_parse).
    reflexivity.
  - apply (shallow_crawls Fixtures.Page Fixtures.page_links Fixtures.url_A 0
             (Fixtures.serve Fixtures.chain) Fixtures.fake_parse).
    reflexivity.
Defined.

Lemma seed_failure_ends_crawl_witness :
  Fixtures.crawl [] Fixtures.url_A 2
  = ([], Scraper.record_request Fixtures.url_A 0 Fixtures.fresh).
Proof.
  apply (seed_failure_ends_crawl Fixtures.Page Fixtures.page_links Fixtures.url_A 2
           (Fixtures.serve []) Fixtures.fake_parse).
  - vm_compute. discriminate.
  - reflexivity.
Defined.

Section FixedSiteExtras.

Import Scraper Trace.

Variable Html : Type.
Variable find_all_a_href : Html -> list string.
Variable base_url : string.
Variable max_depth : Z.

(** A fetcher and a parser that do not look at the world. *)
Variable fetch : string -> option Html.
Variable parse : Html -> Profile.

Local Abbreviation crawl_page_rec :=
  (crawl_page_rec Html find_all_a_href base_url max_depth
     (fun _ => fetch) (fun _ => parse)).
Local Abbreviation _scrape_state :=
  (_scrape_state Html find_all_a_href base_url max_depth
     (fun _ => fetch) (fun _ => parse)).
Local Abbreviation scrape_states :=
  (scrape_states Html find_all_a_href base_url max_depth
     (fun _ => fetch) (fun _ => parse)).
Local Abbreviation scrape_profiles :=
  (scrape_profiles Html find_all_a_href base_url max_depth
     (fun _ => fetch) (fun _ => parse)).
Local Abbreviation follow_link := (follow_link base_url).
Local Abbreviation found_at := (Derived.found_at fetch parse).

Lemma follow_links_found (recurse : string -> CrawlState -> CrawlState) :
  (∀ href st, ∃ seg,
     requests (world (recurse href st)) = requests (world st) ++ seg ∧
     profiles (recurse href st) = profiles st ++ omap found_at seg) →
  ∀ links st, ∃ seg,
    requests (world (fold_left (follow_link recurse) links st))
    = requests (world st) ++ seg ∧
    profiles (fold_left (follow_link recurse) links st)
    = profiles st ++ omap found_at seg.
Proof.
  intros Hrec links. induction links as [|link links IH]; intros st; simpl.
  - exists []. by rewrite !app_nil_r.
  - destruct (IH (follow_link recurse st link)) as (seg2 & Hr2 & Hp2).
    assert (∃ seg1,
      requests (world (follow_link recurse st link)) = requests (world st) ++ seg1 ∧
      profiles (follow_link recurse st link) = profiles st ++ omap found_at seg1)
      as (seg1 & Hr1 & Hp1).
    { unfold Scraper.follow_link. destruct (_ && _); [apply Hrec|].
      exists []. by rewrite !app_nil_r. }
    exists (seg1 ++ seg2). rewrite Hr2, Hr1, Hp2, Hp1, omap_app.
    by rewrite !app_assoc.
Qed.

Lemma crawl_page_rec_found fuel : ∀ url depth st, ∃ seg,
  requests (world (crawl_page_rec fuel url depth st)) = requests (world st) ++ seg ∧
  profiles (crawl_page_rec fuel url depth st) = profiles st ++ omap found_at seg.
Proof.
  induction fuel as [|fuel IH]; intros url depth st; simpl.
  - exists []. rewrite !app_nil_r. by destruct (refuses max_depth url depth st).
  - destruct (refuses max_depth url depth st).
    { exists []. by rewrite !app_nil_r. }
    destruct (fetch url) as [content|] eqn:Hfetch.
    + match goal with |- context [fold_left ?f ?l ?s] =>
        destruct (follow_links_found
                    (fun href => crawl_page_rec fuel href (depth + 1))
                    (fun href st' => IH href (depth + 1) st') l s)
          as (seg & Hr & Hp)
      end.
      exists ((url, depth) :: seg). rewrite Hr, Hp.
      unfold Derived.found_at at 2. cbn [omap list_omap fst].
      destruct (contains (lower url) "profile"); simpl; rewrite ?Hfetch; simpl;
        by rewrite <- !app_assoc.
    + exists [(url, depth)]. simpl. unfold Derived.found_at. simpl.
      rewrite Hfetch. destruct (contains _ _); simpl; by rewrite app_nil_r.
Qed.

(** X16.  With a fetcher and a parser that do not depend on the world, the
    profiles a crawl returns are the parsed pages of the requests whose URL
    has the profile marker and whose page could be fetched, one per such
    request and in the order of the requests. *)
Theorem profiles_follow_requests (state : string) (w : World) :
  fst (_scrape_state state w)
  = omap found_at (issued w (snd (_scrape_state state w))).
Proof.
  unfold Scraper._scrape_state, Scraper.crawl_page. simpl.
  destruct (crawl_page_rec_found (levels_left max_depth 0) base_url 0
              (fresh_state w)) as (seg & Hr & Hp).
  simpl in Hr, Hp. by rewrite (issued_app _ _ _ Hr), Hp.
Qed.

Lemma scrape_states_repeat states : ∀ acc w,
  fst (scrape_states states acc w)
  = acc ++ concat (replicate (length states) (fst (_scrape_state "all" w))).
Proof.
  induction states as [|state states IH]; intros acc w;
    cbn -[Scraper._scrape_state].
  - by rewrite app_nil_r.
  - destruct (scrape_state_fixed Html find_all_a_href base_url max_depth
                (fun _ => fetch) (fun _ => parse)
                (fun _ _ _ => eq_refl) (fun _ _ _ => eq_refl) "all" w
                (snd (_scrape_state state w))) as (_ & _ & _ & Hsame).
    change (_scrape_state state w) with (_scrape_state "all" w) in *.
    destruct (_scrape_state "all" w) as [ps w'] eqn:Hrun.
    rewrite IH. cbn [fst snd] in Hsame. rewrite <- Hsame. by rewrite app_assoc.
Qed.

(** X17.  [scrape_profiles] crawls the same site once for every state it is
    given, the state having no part in the crawl: with a fetcher and a parser
    that do not depend on the world, the result is the result of one crawl,
    repeated as many times as there are states. *)
Theorem one_crawl_per_state (states : list string) (w : World) :
  fst (scrape_profiles (Some states) w)
  = concat (replicate (length states) (fst (_scrape_state "all" w))).
Proof.
  unfold Scraper.scrape_profiles. simpl. by rewrite scrape_states_repeat.
Qed.

Lemma startswith_app s t : startswith (s +:+ t) s = true.
Proof.
  induction s as [|c s IH]; [by destruct t|].
  rewrite app_cons. simpl. by rewrite Ascii.eqb_refl.
Qed.

(** X18.  When [base_url] ends with at most one slash, every link that does
    not begin with [http] resolves to a URL inside [base_url], and so is
    followed unless it was visited. *)
Theorem relative_links_stay_inside (link : string) :
  startswith link "http" = false →
  base_url = rstrip_slash base_url ∨ base_url = rstrip_slash base_url +:+ "/" →
  startswith (resolve base_url link) base_url = true.
Proof.
  intros Hrel Hbase. unfold resolve. rewrite Hrel.
  destruct Hbase as [Hbase|Hbase].
  - rewrite <- Hbase. apply startswith_app.
  - rewrite Hbase at 2. rewrite <- app_assoc_str. apply startswith_app.
Qed.

End FixedSiteExtras.

Lemma relative_links_stay_inside_witness :
  startswith (Scraper.resolve "http://shop.test/" "/profile/1") "http://shop.test/"
  = true.
Proof.
  apply relative_links_stay_inside.
  - reflexivity.
  - right. reflexivity.
Defined.

(** ** The application *)

Section LoopFacts.

Import PyList.

Context {A B : Type} (f : A → result B).

Lemma try_map_ok l : ∀ ys,
  try_map f l = Ok ys → Forall2 (fun x y => f x = Ok y) l ys.
Proof.
  induction l as [|x l IH]; intros ys; simpl.
  - intros [= <-]. constructor.
  - destruct (f x) as [y|] eqn:Hx; [|done].
    destruct (try_map f l) as [ys'|]; [|done].
    intros [= <-]. constructor; [done|by apply IH].
Qed.

Lemma try_map_raise l e :
  try_map f l = Raise e → Exists (fun x => f x = Raise e) l.
Proof.
  induction l as [|x l IH]; simpl; [done|].
  destruct (f x) as [y|e'] eqn:Hx.
  - destruct (try_map f l) as [ys'|e'']; [done|].
    intros [= ->]. apply Exists_cons_tl. by apply IH.
  - intros [= ->]. by apply Exists_cons_hd.
Qed.

End LoopFacts.

Section AppExtras.

Import Scraper App Analyzer.

Variable Html : Type.
Variable find_all_a_href : Html -> list string.
Variable find_text : string -> string -> Html -> option string.
Variable find_all_img_src : Html -> list (option string).
Variable get_page_content : World -> string -> option Html.
Variable session_get : string -> result Response.
Variable imdecode : list Byte.byte -> result (option Img.Image).
Variable face_locations : Img.Image -> result (list Box).
Variable face_recognition_encodings : Img.Image -> list Box -> result (list Encoding).
Variable initialize : World -> option exn.
Variable close : World -> option exn.

Local Abbreviation scrape :=
  (scrape Html find_all_a_href find_text find_all_img_src get_page_content).
Local Abbreviation analyze_all :=
  (analyze_all session_get imdecode face_locations face_recognition_encodings).
Local Abbreviation process_profiles :=
  (process_profiles Html find_all_a_href find_text find_all_img_src
     get_page_content session_get imdecode face_locations
     face_recognition_encodings initialize close).
Local Abbreviation main :=
  (main Html find_all_a_href find_text find_all_img_src
     get_page_content session_get imdecode face_locations
     face_recognition_encodings initialize close).
Local Abbreviation parse_profile :=
  (Extract.parse_profile Html find_text find_all_img_src).
Local Abbreviation _extract_phone := (Extract._extract_phone Html find_text).

Lemma analyze_profile_base use_apis p e :
  analyze_profile use_apis session_get imdecode face_locations
    face_recognition_encodings p = Ok e → base e = p.
Proof.
  unfold analyze_profile, bind.
  destruct (required (images p)); [|done].
  match goal with |- match ?x with _ => _ end = _ → _ => destruct x end; [|done].
  by intros [= <-].
Qed.

(** X19.  What [analyze_profile] makes of a parsed page depends on the phone
    block alone: it raises [TypeError] when [_extract_phone] finds no phone,
    and otherwise returns an enriched profile of the parsed record. *)
Theorem parsed_page_analysis use_apis base_url (w : World) (soup : Html) :
  let record := parse_profile base_url w soup in
  (_extract_phone soup = None →
     analyze_profile use_apis session_get imdecode face_locations
       face_recognition_encodings record = Raise TypeError) ∧
  (_extract_phone soup ≠ None →
     ∃ e, analyze_profile use_apis session_get imdecode face_locations
            face_recognition_encodings record = Ok e ∧ base e = record).
Proof.
  intros record. split.
  - intros Hnone. apply analyze_profile_none_raises.
    right. unfold record, Extract.parse_profile, Scraper.parse_profile. simpl.
    by rewrite Hnone.
  - intros Hsome.
    destruct (analyze_profile_returns use_apis session_get imdecode
                face_locations face_recognition_encodings record)
      as (ia & pa & la & He & _).
    + done.
    + unfold record, Extract.parse_profile, Scraper.parse_profile. simpl.
      by destruct (_extract_phone soup).
    + eexists. split; [exact He|]. by apply analyze_profile_base in He.
Qed.

Lemma scraped_have_images base_url states w :
  Forall (fun p => images p ≠ PyNone) (fst (scrape base_url states w)).
Proof.
  unfold App.scrape, scrape_profiles.
  apply scrape_states_profiles; [|constructor].
  intros w' content. unfold Extract.parse_profile, Scraper.parse_profile. done.
Qed.

Lemma analyze_all_outcome use_apis (ps : list Profile) :
  Forall (fun p => images p ≠ PyNone) ps →
  match analyze_all use_apis ps with
  | Ok saved => map base saved = ps ∧ Forall (fun p => phone p ≠ PyNone) ps
  | Raise e => e = TypeError ∧ Exists (fun p => phone p = PyNone) ps
  end.
Proof.
  intros Himages. unfold App.analyze_all.
  destruct (PyList.try_map _ ps) as [saved|e] eqn:Hrun.
  - apply try_map_ok in Hrun. split.
    + clear Himages. induction Hrun as [|p e ps saved He _ IH]; simpl; [done|].
      by rewrite IH, (analyze_profile_base _ _ _ He).
    + clear Himages. induction Hrun as [|p e ps saved He _ IH]; constructor; [|done].
      by apply analyze_profile_ok_fields in He as [_ Hp].
  - apply try_map_raise in Hrun.
    apply Exists_exists in Hrun as (p & Hin & Hp).
    destruct (analyze_profile_raise_cause _ _ _ _ _ p e Hp) as [-> Hwhy].
    split; [done|].
    apply Exists_exists. exists p. split; [done|].
    destruct Hwhy as [Hi|Hp']; [|done].
    rewrite Forall_forall in Himages. by destruct (Himages p Hin).
Qed.

(** X20.  [process_profiles] comes to save in one case only: the browser
    started, the crawl was closed without an exception, and every scraped
    profile has a phone; it then saves one enriched profile for each
    scraped profile, in the order of the crawl.  Otherwise it raises, and
    nothing is saved: the exception of [initialize], before any request is
    made; or the exception of [close], the scraped profiles being lost; or
    [TypeError], for a scraped profile that has [None] for a phone. *)
Theorem process_profiles_all_or_nothing base_url use_apis states (w : World) :
  let scraped := fst (scrape base_url states w) in
  let crawled := snd (scrape base_url states w) in
  match process_profiles base_url use_apis states w with
  | (Ok saved, w') =>
      initialize w = None ∧ close crawled = None ∧ w' = crawled ∧
      map base saved = scraped ∧
      Forall (fun p => phone p ≠ PyNone) scraped
  | (Raise e, w') =>
      (initialize w = Some e ∧ w' = w) ∨
      (initialize w = None ∧ close crawled = Some e ∧ w' = crawled) ∨
      (initialize w = None ∧ close crawled = None ∧ w' = crawled ∧
       e = TypeError ∧ Exists (fun p => phone p = PyNone) scraped)
  end.
Proof.
  intros scraped crawled.
  unfold App.process_profiles, App.scraper_scrape_profiles.
  destruct (initialize w) as [e|] eqn:Hinit; [by left|].
  pose proof (scraped_have_images base_url states w) as Himages.
  fold scraped in Himages. unfold scraped, crawled in *. clear scraped crawled.
  destruct (scrape base_url states w) as [ps w1]. cbn [fst snd] in *.
  destruct (close w1) as [e|] eqn:Hclose; [right; by left|].
  pose proof (analyze_all_outcome use_apis ps Himages) as Hout.
  destruct (analyze_all use_apis ps) as [saved|e].
  - destruct Hout as [Hmap Hphones]. done.
  - destruct Hout as [-> Hphone]. right. right. done.
Qed.

(** X21.  The depth given on the command line is not used: whatever
    [--depth] says, the scraper is built with the default limit, so every
    request of a run is made at a depth between 0 and 2, and for a URL that
    begins with the URL given on the command line. *)
Theorem depth_argument_is_ignored (args : Args) (w : World) :
  Forall (fun r => 0 ≤ snd r ≤ 2 ∧ startswith (fst r) (arg_url args) = true)
    (issued w (snd (main args w))) ∧
  ∀ d, main args w
       = main {| arg_url := arg_url args; arg_states := arg_states args;
                 arg_use_apis := arg_use_apis args; arg_depth := d |} w.
Proof.
  split; [|done].
  assert (Hcrawl :
    Forall (fun r => 0 ≤ snd r ≤ 2 ∧ startswith (fst r) (arg_url args) = true)
      (issued w (snd (scrape (arg_url args) (Some (arg_states args)) w)))).
  { unfold App.scrape, scrape_profiles.
    destruct (scrape_states_requests Html find_all_a_href (arg_url args)
                default_max_depth get_page_content
                (parse_profile (arg_url args))
                (default ["all"%string] (Some (arg_states args))) [] w)
      as (seg & Hreq & Hall).
    by rewrite (issued_app _ _ _ Hreq). }
  unfold App.main, App.process_profiles, App.scraper_scrape_profiles.
  destruct (initialize w) as [e|].
  - cbn [snd]. unfold issued. rewrite drop_all. constructor.
  - destruct (scrape (arg_url args) (Some (arg_states args)) w) as [ps w'].
    cbn [snd] in Hcrawl. by destruct (close w').
Qed.

End AppExtras.

Lemma parsed_page_analysis_witness :
  let find_text := fun (tag cls : string) (_ : unit) =>
    if String.eqb cls "phone-number" then Some "555-123-4567"%string else None in
  ∃ e, Analyzer.analyze_profile false Fixtures.offline Fixtures.no_decoder
         Fixtures.no_faces Fixtures.no_encodings
         (Extract.parse_profile unit find_text (fun _ => []) "http://shop.test"
            Fixtures.fresh tt) = Ok e ∧
       Analyzer.base e
       = Extract.parse_profile unit find_text (fun _ => []) "http://shop.test"
           Fixtures.fresh tt.
Proof.
  intros find_text.
  apply (parsed_page_analysis unit find_text (fun _ => []) Fixtures.offline
           Fixtures.no_decoder Fixtures.no_faces Fixtures.no_encodings
           false "http://shop.test" Fixtures.fresh tt).
  vm_compute. discriminate.
Defined.

(** ** The score *)

Section ScoreExtras.

Import Analyzer.
Local Open Scope Q_scope.



End ScoreExtras.


(** ** The settings *)

Section SettingsExtras.

Import Settings.

Variable getenv : string -> option string.

Lemma api_key_name service name :
  (name +:+ "_api_key" = service +:+ "_api_key") ↔ service = name.
Proof.
  split; [|by intros ->]. intros Heq. symmetry. by apply app_inv_tail_str in Heq.
Qed.

(** The key [get_api_key] returns. *)
Lemma get_api_key_cases service :
  get_api_key getenv service =
  if decide (service = "google"%string) then getenv "GOOGLE_API_KEY"
  else if decide (service = "face"%string) then getenv "FACE_API_KEY"
  else if decide (service = "phone"%string) then getenv "PHONE_API_KEY"
  else if decide (service = "location"%string) then getenv "LOCATION_API_KEY"
  else None.
Proof.
  unfold get_api_key, API_CONFIG, list_to_map. cbn [foldr uncurry fst snd].
  change "google_api_key"%string with ("google" +:+ "_api_key").
  change "face_api_key"%string with ("face" +:+ "_api_key").
  change "phone_api_key"%string with ("phone" +:+ "_api_key").
  change "location_api_key"%string with ("location" +:+ "_api_key").
  rewrite !lookup_insert, lookup_empty.
  destruct (decide (service = "google"%string)) as [->|H1];
    [by rewrite decide_True|rewrite decide_False by by rewrite api_key_name].
  destruct (decide (service = "face"%string)) as [->|H2];
    [by rewrite decide_True|rewrite decide_False by by rewrite api_key_name].
  destruct (decide (service = "phone"%string)) as [->|H3];
    [by rewrite decide_True|rewrite decide_False by by rewrite api_key_name].
  destruct (decide (service = "location"%string)) as [->|H4];
    [by rewrite decide_True|by rewrite decide_False by by rewrite api_key_name].
Qed.

(** X23.  [is_api_enabled] answers yes for the four services [google],
    [face], [phone] and [location] alone, and for one of them only when the
    variable that holds its key is set to a non-empty string. *)
Theorem api_enabled_iff (service : string) :
  is_api_enabled getenv service = true ↔
  ∃ variable key,
    (service, variable) ∈ services ∧ getenv variable = Some key ∧
    key ≠ EmptyString.
Proof.
  unfold is_api_enabled. rewrite get_api_key_cases. unfold services. split.
  - repeat case_decide; subst;
      try (destruct (getenv _) as [[|c key]|] eqn:Hkey; try discriminate; intros _;
           eexists _, _; split; [|split; [exact Hkey|done]]);
      try discriminate.
    + apply list_elem_of_here.
    + do 1 apply list_elem_of_further. apply list_elem_of_here.
    + do 2 apply list_elem_of_further. apply list_elem_of_here.
    + do 3 apply list_elem_of_further. apply list_elem_of_here.
  - intros (variable & key & Hin & Hkey & Hne).
    repeat (apply elem_of_cons in Hin as [[= -> ->]|Hin];
            [repeat case_decide; try done; rewrite Hkey; by destruct key|]).
    by apply elem_of_nil in Hin.
Qed.

End SettingsExtras.

(** ** The visualizer *)

Section VisualizerExtras.

Import PyList Analyzer Visualizer.

Lemma len_try_map {A} (measure : A → nat) (field : EnrichedProfile → slot A)
    (profiles : list EnrichedProfile) :
  match try_map (fun p => len_of measure (field p)) profiles with
  | Ok _ => Forall (fun p => field p ≠ PyNone) profiles
  | Raise e => e = TypeError ∧ Exists (fun p => field p = PyNone) profiles
  end.
Proof.
  induction profiles as [|p profiles IH]; simpl; [constructor|].
  destruct (field p) eqn:Hp; simpl.
  - destruct (try_map _ profiles).
    + constructor; [by rewrite Hp|done].
    + destruct IH as [-> IH]. split; [done|by apply Exists_cons_tl].
  - split; [done|by apply Exists_cons_hd].
  - destruct (try_map _ profiles).
    + constructor; [by rewrite Hp|done].
    + destruct IH as [-> IH]. split; [done|by apply Exists_cons_tl].
Qed.

(** X24.  The lists [visualize_profile_stats] plots are computed without
    exception exactly when no profile holds [None] under [images] or under
    [message]; one such profile makes the computation raise [TypeError]. *)
Theorem profile_stats_need_messages (profiles : list EnrichedProfile) :
  match profile_stats_data profiles with
  | Ok _ =>
      Forall (fun p => images (base p) ≠ PyNone ∧ message (base p) ≠ PyNone) profiles
  | Raise e =>
      e = TypeError ∧
      Exists (fun p => images (base p) = PyNone ∨ message (base p) = PyNone) profiles
  end.
Proof.
  unfold profile_stats_data, bind, image_counts, message_lengths.
  pose proof (len_try_map (@length string) (fun p => images (base p)) profiles) as Hi.
  pose proof (len_try_map String.length (fun p => message (base p)) profiles) as Hm.
  destruct (try_map (fun p => len_of _ (images (base p))) profiles).
  - destruct (try_map (fun p => len_of _ (message (base p))) profiles).
    + rewrite Forall_forall in Hi, Hm. apply Forall_forall. intros p Hp. auto.
    + destruct Hm as [-> Hm]. split; [done|].
      eapply Exists_impl; [exact Hm|]. simpl. auto.
  - destruct Hi as [-> Hi]. split; [done|].
    eapply Exists_impl; [exact Hi|]. simpl. auto.
Qed.

Lemma heatmap_needs_valid_location (profiles : list EnrichedProfile) :
  Forall (fun e => get_location_valid e = false) profiles →
  heatmap_coordinates profiles = [].
Proof.
  induction 1 as [|e profiles He _ IH]; [done|].
  unfold heatmap_coordinates in *. cbn [omap list_omap].
  unfold get_location_valid in He.
  destruct (location_analysis e) as [la|]; [|exact IH].
  rewrite He. exact IH.
Qed.

Variable Html : Type.
Variable find_all_a_href : Html -> list string.
Variable find_text : string -> string -> Html -> option string.
Variable find_all_img_src : Html -> list (option string).
Variable get_page_content : World -> string -> option Html.
Variable session_get : string -> result Response.
Variable imdecode : list Byte.byte -> result (option Img.Image).
Variable face_locations : Img.Image -> result (list Box).
Variable face_recognition_encodings : Img.Image -> list Box -> result (list Encoding).
Variable initialize : World -> option exn.
Variable close : World -> option exn.

(** X25.  The profiles a run hands over never give the location heatmap
    anything to draw: no profile has a valid location, the list of
    coordinates is empty, and [visualize_location_heatmap] returns before it
    plots. *)
Theorem heatmap_is_never_drawn base_url use_apis states (w : World) saved :
  fst (App.process_profiles Html find_all_a_href find_text find_all_img_src
         get_page_content session_get imdecode face_locations
         face_recognition_encodings initialize close
         base_url use_apis states w) = Ok saved →
  heatmap_coordinates saved = [].
Proof.
  unfold App.process_profiles, App.scraper_scrape_profiles.
  destruct (initialize w); [done|].
  destruct (App.scrape _ _ _ _ _ base_url states w) as [ps w'].
  destruct (close w'); [done|]. cbn [fst].
  unfold App.analyze_all. intros Hrun%try_map_ok.
  apply heatmap_needs_valid_location.
  induction Hrun as [|p e ps saved He _ IH]; constructor; [|done].
  by apply returned_location_invalid in He.
Qed.

End VisualizerExtras.

Lemma heatmap_is_never_drawn_witness :
  let find_text := fun (tag cls : string) (_ : Fixtures.Page) =>
    if String.eqb cls "phone-number" then Some "555-123-4567"%string else None in
  ∃ saved,
    fst (App.process_profiles Fixtures.Page Fixtures.page_links find_text
           (fun _ => []) (Fixtures.serve Fixtures.listing) Fixtures.offline
           Fixtures.no_decoder Fixtures.no_faces Fixtures.no_encodings
           (fun _ => None) (fun _ => None)
           Fixtures.url_shop false None Fixtures.fresh) = Ok saved ∧
    length saved = 2%nat ∧
    Visualizer.heatmap_coordinates saved = [].
Proof.
  intros find_text. eexists. split; [vm_compute; reflexivity|].
  split; [reflexivity|].
  eapply (heatmap_is_never_drawn Fixtures.Page Fixtures.page_links find_text
            (fun _ => []) (Fixtures.serve Fixtures.listing) Fixtures.offline
            Fixtures.no_decoder Fixtures.no_faces Fixtures.no_encodings
            (fun _ => None) (fun _ => None)
            Fixtures.url_shop false None Fixtures.fresh).
  vm_compute. reflexivity.
Defined.
